(** * Cross-database merge, deduplication and task reconciliation of
    big5_databases, embedded in Rocq.

    Sources modelled:
    - [databases/db_operations.py]: [filter_posts_with_existing_post_ids],
      [get_tasks_with_posts], [count_states], [find_tasks_groups],
      [reset_task_states];
    - [databases/c_db_merge.py]: [merge_database], [process_collection_task],
      [check_for_conflicts] (with its inner [update_task]), [get_db] (with
      the [metadata] of the manager it returns);
    - [databases/db_mgmt.py]: [DatabaseManager.safe_submit_posts],
      [DatabaseManager.add_db_collection_tasks],
      [DatabaseManager.insert_posts_with_deduplication],
      [DatabaseManager.reset_collection_task_states],
      [DatabaseManager.delete_tasks], [DatabaseManager.update_task_results],
      [DatabaseManager.get_tasks_of_states], [DatabaseManager.get_pending_tasks],
      [DatabaseManager._submit_posts] under [_sqlite_on_connect]
      ([PRAGMA foreign_keys=ON]).

    A store (one SQLite database) is a list of task rows and a list of post
    rows, in rowid order.  The SQLAlchemy session of the target store is an
    explicit state: the rows it sees, the pending [DBPost] objects
    ([session.new], each with the [post_type] attribute it was built with),
    the number of rows flushed since the last commit and the log of
    commits.  A flush binds [post_type] to the [Enum(PostType)] column,
    which accepts only enum members. *)

From Stdlib Require Import List String Ascii ZArith Arith Lia Bool Permutation Sorting.
Import ListNotations.

(** ** Data model ([external.py], [db_models.py], [model_conversion.py]) *)

Inductive CollectionStatus :=
| INIT | INVALID_CONF | RUNNING | PAUSED | ABORTED | DONE.

Definition status_eqb (a b : CollectionStatus) : bool :=
  match a, b with
  | INIT, INIT | INVALID_CONF, INVALID_CONF | RUNNING, RUNNING
  | PAUSED, PAUSED | ABORTED, ABORTED | DONE, DONE => true
  | _, _ => false
  end.

(** [DBCollectionTask]: [collection_config] is the JSON value, kept opaque;
    two configs have the same [DeepHash] exactly when they are equal. *)
Record CollectionTask := mkTask {
  task_id : Z;
  task_name : string;
  task_platform : string;
  collection_config : string;
  status : CollectionStatus;
  found_items : option Z;
  added_items : option Z
}.

(** [DBPost] / [PostModel]: [metadata_content] is always a
    [PostMetadataModel] (its validator replaces [None] by a fresh one), so
    only its [orig_db_conf] field is kept. *)
Record Post := mkPost {
  post_id : Z;
  post_platform : string;
  platform_id : string;
  collection_task_id : option Z;
  orig_db_conf : option (string * option Z)
}.

Record Store := mkStore {
  tasks : list CollectionTask;
  posts : list Post
}.

Definition stored_ids (st : Store) : list string := map platform_id (posts st).

Definition mem_str (x : string) (l : list string) : bool := existsb (String.eqb x) l.

(** Surrogate ids: SQLite gives a new row [max(rowid) + 1]. *)
Definition next_task_id (ts : list CollectionTask) : Z :=
  (1 + fold_left (fun m t => Z.max m (task_id t)) ts 0)%Z.

Definition next_post_id (ps : list Post) : Z :=
  (1 + fold_left (fun m p => Z.max m (post_id p)) ps 0)%Z.

(** ** Deduplicator: [db_operations.filter_posts_with_existing_post_ids] *)

(** [post_ids = [p.platform_id for p in posts]]; the query
    [select platform_id where platform_id in post_ids] returns the stored
    ids among them; the result keeps the posts whose id is not found. *)
Definition filter_posts_with_existing_post_ids (ps : list Post) (target : Store)
  : list Post :=
  let post_ids := map platform_id ps in
  let found_post_ids := filter (fun q => mem_str q post_ids) (stored_ids target) in
  filter (fun p => negb (mem_str (platform_id p) found_post_ids)) ps.

(** ** [db_operations.get_tasks_with_posts] *)

Definition opt_Z_eqb (a b : option Z) : bool :=
  match a, b with
  | Some x, Some y => Z.eqb x y
  | None, None => true
  | _, _ => false
  end.

(** [select DBPost where collection_task_id == task.id]: the SQL equality
    is never true on a NULL foreign key. *)
Definition posts_of_task (src : Store) (t : CollectionTask) : list Post :=
  filter (fun p => match collection_task_id p with
                   | Some i => Z.eqb i (task_id t)
                   | None => false
                   end) (posts src).

Definition get_tasks_with_posts (src : Store) : list (CollectionTask * list Post) :=
  map (fun t => (t, posts_of_task src t)) (tasks src).

(** ** The target session *)

Fixpoint fold_opt {A B : Type} (f : A -> B -> option A) (l : list B) (a : A)
  : option A :=
  match l with
  | [] => Some a
  | x :: l' => match f a x with
               | Some a' => fold_opt f l' a'
               | None => None
               end
  end.

(** [PostType] ([external.py]) has the single member [REGULAR = auto()],
    whose [.value] is [1]; every post of the model is [REGULAR]. *)
Inductive PostType := REGULAR.

Definition PostType_value (t : PostType) : Z :=
  match t with REGULAR => 1%Z end.

(** The value held by the [post_type] attribute of a [DBPost] object: an
    enum member, or a plain [int]. *)
Inductive PostTypeAttr :=
| PTMember (t : PostType)
| PTInt (v : Z).

(** [PostModel.post_type] is annotated with
    [PlainSerializer(lambda t: t.value, return_type=int, when_used='always')],
    so [model_dump()] gives the member's value, an [int]. *)
Definition dump_post_type (t : PostType) : PostTypeAttr := PTInt (PostType_value t).

(** The bind step of the column [Enum(PostType)] ([db_models.py:106]): a
    member is accepted; any other value is looked up among the members and
    their names, is not found, and raises [LookupError] (wrapped in a
    [StatementError]) when the row is flushed. *)
Definition enum_bind (a : PostTypeAttr) : option PostType :=
  match a with
  | PTMember t => Some t
  | PTInt _ => None
  end.

(** A [DBPost] built from [post.model_dump(exclude={"id"})], added to the session and
    not yet flushed: no id (the database assigns it at insert). *)
Record PendingPost := mkPending {
  pending_platform : string;
  pending_platform_id : string;
  pending_task_id : option Z;
  pending_orig_db_conf : option (string * option Z);
  pending_post_type : PostTypeAttr
}.

Record Session := mkSession {
  sess_store : Store;               (** the rows as this transaction sees them *)
  sess_new : list PendingPost;      (** [session.new]: posts added, not flushed *)
  sess_uncommitted : nat;           (** posts flushed since the last commit *)
  sess_commits : list nat           (** number of posts each commit made durable *)
}.

(** The INSERT of one pending post: its parameters are bound first (the
    [post_type] bind may raise), the row gets the next id, and a
    [platform_id] already stored raises [IntegrityError]. *)
Definition insert_pending (st : Store) (pp : PendingPost) : option Store :=
  match enum_bind (pending_post_type pp) with
  | None => None
  | Some _ =>
      if mem_str (pending_platform_id pp) (stored_ids st) then None
      else Some (mkStore (tasks st)
                   (posts st ++ [mkPost (next_post_id (posts st)) (pending_platform pp)
                                   (pending_platform_id pp) (pending_task_id pp)
                                   (pending_orig_db_conf pp)]))
  end.

(** [session.flush()]: the pending objects are written in order; an error
    aborts the flush ([None]). *)
Definition flush (s : Session) : option Session :=
  match fold_opt insert_pending (sess_new s) (sess_store s) with
  | Some st =>
      Some (mkSession st [] (sess_uncommitted s + List.length (sess_new s))
                      (sess_commits s))
  | None => None
  end.

(** SQLAlchemy's default [autoflush]: every [session.execute] first flushes
    the pending objects. *)
Definition autoflush (s : Session) : option Session := flush s.

(** [session.commit()]: a flush, then the flushed rows become durable. *)
Definition commit (s : Session) : option Session :=
  match flush s with
  | Some s => Some (mkSession (sess_store s) [] 0 (sess_commits s ++ [sess_uncommitted s]))
  | None => None
  end.

Definition set_tasks (s : Session) (ts : list CollectionTask) : Session :=
  mkSession (mkStore ts (posts (sess_store s))) (sess_new s)
            (sess_uncommitted s) (sess_commits s).

Record MergeStats := mkStats {
  total_posts_found : nat;
  duplicated_posts_skipped : nat;
  new_posts_added : nat;
  existing_tasks_updated : nat;
  new_tasks_created : nat
}.

Definition empty_stats : MergeStats := mkStats 0 0 0 0 0.

(** ** [c_db_merge.process_collection_task] *)

(** [select DBCollectionTask where task_name == ...].scalar()]: the first row. *)
Definition find_task_by_name (name : string) (ts : list CollectionTask)
  : option CollectionTask :=
  find (fun t => String.eqb (task_name t) name) ts.

(** The ORM writes the modified object back to its row (by primary key). *)
Definition replace_task (t' : CollectionTask) (ts : list CollectionTask)
  : list CollectionTask :=
  map (fun t => if Z.eqb (task_id t) (task_id t') then t' else t) ts.

Definition or0 (x : option Z) : Z :=
  match x with Some v => v | None => 0%Z end.

(** Branch [existing_task]: counters [(x or 0) + num_new_posts]; status set
    to DONE when the source task is DONE. *)
Definition update_existing (et tm : CollectionTask) (num_new_posts : nat)
  : CollectionTask :=
  mkTask (task_id et) (task_name et) (task_platform et) (collection_config et)
    (if status_eqb (status tm) DONE then DONE else status et)
    (Some (or0 (found_items et) + Z.of_nat num_new_posts)%Z)
    (Some (or0 (added_items et) + Z.of_nat num_new_posts)%Z).

(** Branch [else]: a new row built from [task_model.model_dump(exclude={"id"})]
    with both counters set to [num_new_posts]. *)
Definition clone_task (tm : CollectionTask) (new_id : Z) (num_new_posts : nat)
  : CollectionTask :=
  mkTask new_id (task_name tm) (task_platform tm) (collection_config tm)
    (status tm) (Some (Z.of_nat num_new_posts)) (Some (Z.of_nat num_new_posts)).

(** The [select] flushes first ([None]: the flush raised). *)
Definition process_collection_task (s : Session) (tm : CollectionTask)
    (num_new_posts : nat) (stats : MergeStats)
  : option (Session * CollectionTask * MergeStats) :=
  match autoflush s with
  | None => None
  | Some s =>
      let ts := tasks (sess_store s) in
      match find_task_by_name (task_name tm) ts with
      | Some et =>
          let et' := update_existing et tm num_new_posts in
          Some (set_tasks s (replace_task et' ts), et',
                mkStats (total_posts_found stats) (duplicated_posts_skipped stats)
                        (new_posts_added stats) (S (existing_tasks_updated stats))
                        (new_tasks_created stats))
      | None =>
          (* session.add(new_task); session.flush(): the autoflush above
             left no pending post, so this flush writes the task row only *)
          let nt := clone_task tm (next_task_id ts) num_new_posts in
          Some (set_tasks s (ts ++ [nt]), nt,
                mkStats (total_posts_found stats) (duplicated_posts_skipped stats)
                        (new_posts_added stats) (existing_tasks_updated stats)
                        (S (new_tasks_created stats)))
      end
  end.

(** ** [c_db_merge.merge_database] *)

Definition batch_size : nat := 500.

(** The body of [for post in new_posts]: the foreign key is set to the
    target task first, then [orig_db_conf] is stamped with
    [(source_db_path.as_posix(), post.collection_task_id)], read after that
    assignment; a [DBPost] built from [post.model_dump(exclude={"id"})] is added to the
    session, with [post_type] dumped to its [int] value. *)
Definition stage_post (source_db_path : string) (target_task_id : Z)
    (s : Session) (post : Post) : Session :=
  let post := mkPost (post_id post) (post_platform post) (platform_id post)
                (Some target_task_id) (orig_db_conf post) in
  let post := mkPost (post_id post) (post_platform post) (platform_id post)
                (collection_task_id post)
                (Some (source_db_path, collection_task_id post)) in
  let new_post := mkPending (post_platform post) (platform_id post)
                    (collection_task_id post) (orig_db_conf post)
                    (dump_post_type REGULAR) in
  mkSession (sess_store s) (sess_new s ++ [new_post]) (sess_uncommitted s)
            (sess_commits s).

(** [if len(target_session.new) >= batch_size: target_session.commit()] *)
Definition maybe_commit (s : Session) : option Session :=
  if batch_size <=? List.length (sess_new s) then commit s else Some s.

(** One iteration of [for task_model, posts_models in get_tasks_with_posts(source_db)]. *)
Definition merge_task (source_db_path : string) (acc : Session * MergeStats)
    (tp : CollectionTask * list Post) : option (Session * MergeStats) :=
  let (s, stats) := acc in
  let (task_model, posts_models) := tp in
  let stats := mkStats (total_posts_found stats + List.length posts_models)
                 (duplicated_posts_skipped stats) (new_posts_added stats)
                 (existing_tasks_updated stats) (new_tasks_created stats) in
  match autoflush s with
  | None => None
  | Some s =>
      let new_posts := filter_posts_with_existing_post_ids posts_models (sess_store s) in
      let stats := mkStats (total_posts_found stats)
                     (duplicated_posts_skipped stats
                      + (List.length posts_models - List.length new_posts))
                     (new_posts_added stats + List.length new_posts)
                     (existing_tasks_updated stats) (new_tasks_created stats) in
      match process_collection_task s task_model (List.length new_posts) stats with
      | None => None
      | Some (s, target_task, stats) =>
          let s := fold_left (stage_post source_db_path (task_id target_task)) new_posts s in
          match maybe_commit s with
          | Some s => Some (s, stats)
          | None => None
          end
      end
  end.

(** [with target_db.get_session() as target_session: ...]: the context
    manager commits when the block ends; on an exception it rolls back and
    re-raises ([None]), so the target keeps the rows it had.  Result: the
    target store, the returned stats and the commit log. *)
Definition merge_database (source_db_path : string) (source target : Store)
  : option (Store * MergeStats * list nat) :=
  match fold_opt (merge_task source_db_path) (get_tasks_with_posts source)
                 (mkSession target [] 0 [], empty_stats) with
  | Some (s, stats) =>
      match commit s with
      | Some s => Some (sess_store s, stats, sess_commits s)
      | None => None
      end
  | None => None
  end.

(** ** Task reconciler: [DatabaseManager.add_db_collection_tasks] *)

Module Reconcile.

(** The fields of [ClientTaskConfig] the reconciler reads; the Optional
    [force_new_index] is read by truth value. *)
Record ClientTaskConfig := mkClient {
  c_task_name : string;
  c_overwrite : bool;
  c_keep_old_posts : bool;
  c_group_prefix : option string;
  c_force_new_index : bool
}.

Definition rename (t : ClientTaskConfig) (n : string) : ClientTaskConfig :=
  mkClient n (c_overwrite t) (c_keep_old_posts t) (c_group_prefix t)
    (c_force_new_index t).

(** [f"{t.group_prefix}"]: [None] prints as [None]. *)
Definition prefix_str (o : option string) : string :=
  match o with Some p => p | None => "None" end.

Definition ascii_lower (c : ascii) : ascii :=
  let n := nat_of_ascii c in
  if (65 <=? n) && (n <=? 90) then ascii_of_nat (n + 32) else c.

Fixpoint suffixes (s : list ascii) : list (list ascii) :=
  match s with
  | [] => [[]]
  | _ :: s' => s :: suffixes s'
  end.

(** SQLite [LIKE] without ESCAPE: [%] matches any sequence, [_] any single
    character, other characters match ASCII case-insensitively. *)
Fixpoint like_match (pat s : list ascii) : bool :=
  match pat with
  | [] => match s with [] => true | _ => false end
  | c :: pat' =>
      if Ascii.eqb c "%"%char then existsb (like_match pat') (suffixes s)
      else match s with
           | [] => false
           | d :: s' =>
               (Ascii.eqb c "_"%char || Ascii.eqb (ascii_lower c) (ascii_lower d))
               && like_match pat' s'
           end
  end.

Definition like (s pat : string) : bool :=
  like_match (list_ascii_of_string pat) (list_ascii_of_string s).

(** [str.removeprefix] *)
Definition removeprefix (s p : string) : string :=
  if String.prefix p s then substring (String.length p) (String.length s - String.length p) s
  else s.

(** Python [int(str)] on ASCII text: surrounding whitespace, one optional
    sign, decimal digits with single underscores between them; any other
    text raises [ValueError] ([None]). *)
Definition is_space (c : ascii) : bool :=
  let n := nat_of_ascii c in (n =? 32) || ((9 <=? n) && (n <=? 13)).

Definition is_digit (c : ascii) : bool :=
  let n := nat_of_ascii c in (48 <=? n) && (n <=? 57).

Fixpoint drop_space (l : list ascii) : list ascii :=
  match l with
  | c :: l' => if is_space c then drop_space l' else l
  | [] => []
  end.

Definition strip (cs : list ascii) : list ascii :=
  rev (drop_space (rev (drop_space cs))).

Fixpoint digits_acc (r : list ascii) (acc : Z) (prev_us : bool) : option Z :=
  match r with
  | [] => if prev_us then None else Some acc
  | c :: r' =>
      if is_digit c then digits_acc r' (acc * 10 + Z.of_nat (nat_of_ascii c - 48))%Z false
      else if Ascii.eqb c "_"%char && negb prev_us then digits_acc r' acc true
      else None
  end.

Definition parse_digits (r : list ascii) : option Z :=
  match r with
  | c :: _ => if is_digit c then digits_acc r 0%Z false else None
  | [] => None
  end.

Definition python_int (s : string) : option Z :=
  match strip (list_ascii_of_string s) with
  | c :: r =>
      if Ascii.eqb c "-"%char then option_map Z.opp (parse_digits r)
      else if Ascii.eqb c "+"%char then parse_digits r
      else parse_digits (c :: r)
  | [] => None
  end.

(** [f"{next_idx}"] for a natural number. *)
Fixpoint digits_of_nat (fuel n : nat) (acc : string) : string :=
  match fuel with
  | O => acc
  | S fuel' =>
      let acc := String (ascii_of_nat (48 + n mod 10)) acc in
      if n <? 10 then acc else digits_of_nat fuel' (n / 10) acc
  end.

Definition string_of_nat (n : nat) : string := digits_of_nat (S n) n "".

(** A Python [set[int]] as a duplicate-free list. *)
Definition set_add (k : Z) (used : list Z) : list Z :=
  if existsb (Z.eqb k) used then used else used ++ [k].

Definition set_of (l : list Z) : list Z := fold_left (fun used k => set_add k used) l [].

(** [for next_idx in range(len(existing_indices) + 1):
       if next_idx not in existing_indices: ... break] *)
Fixpoint first_free_from (i fuel : nat) (used : list Z) : option nat :=
  match fuel with
  | O => None
  | S fuel' => if existsb (Z.eqb (Z.of_nat i)) used then first_free_from (S i) fuel' used
               else Some i
  end.

Definition first_free (used : list Z) : option nat :=
  first_free_from 0 (List.length used + 1) used.

Fixpoint map_opt {A B} (f : A -> option B) (l : list A) : option (list B) :=
  match l with
  | [] => Some []
  | x :: l' => match f x with
               | Some y => match map_opt f l' with Some ys => Some (y :: ys) | None => None end
               | None => None
               end
  end.

Definition opt_str_eqb (a b : option string) : bool :=
  match a, b with
  | Some x, Some y => String.eqb x y
  | None, None => true
  | _, _ => false
  end.

(** [group_prefix_existing_tasks]: a [defaultdict(set)] keyed by the
    Optional group prefix. *)
Definition GroupMap := list (option string * list Z).

Fixpoint gm_get (k : option string) (m : GroupMap) : option (list Z) :=
  match m with
  | [] => None
  | (k', v) :: m' => if opt_str_eqb k k' then Some v else gm_get k m'
  end.

Definition gm_set (k : option string) (v : list Z) (m : GroupMap) : GroupMap :=
  (k, v) :: m.

(** [select task_name where task_name like f"{group_prefix}_%"], then
    [set([int(tn.removeprefix(f"{group_prefix}_")) for tn in ...])];
    a [ValueError] of [int] aborts the whole call ([None]). *)
Definition group_indices (store_names : list string) (gp : option string)
  : option (list Z) :=
  let p := String.append (prefix_str gp) "_" in
  match map_opt (fun tn => python_int (removeprefix tn p))
          (List.filter (fun tn => like tn (String.append p "%")) store_names) with
  | Some l => Some (set_of l)
  | None => None
  end.

(** The loop state: the group map, the names to overwrite, the candidates
    kept (renamed in place) and [new_tasks_names]. *)
Record LoopState := mkLoop {
  l_groups : GroupMap;
  l_overwrite : list (string * bool);
  l_kept : list ClientTaskConfig;
  l_new_names : list string
}.

Definition loop_step (store_names existing_names : list string)
    (ls : LoopState) (t : ClientTaskConfig) : option LoopState :=
  if mem_str (c_task_name t) existing_names then
    if c_overwrite t then
      Some (mkLoop (l_groups ls) (l_overwrite ls ++ [(c_task_name t, c_keep_old_posts t)])
                   (l_kept ls ++ [t]) (l_new_names ls))
    else if c_force_new_index t then
      let gp := c_group_prefix t in
      let loaded :=
        match gm_get gp (l_groups ls) with
        | Some (_ :: _) => Some (l_groups ls)
        | _ => match group_indices store_names gp with
               | Some used => Some (gm_set gp used (l_groups ls))
               | None => None
               end
        end in
      match loaded with
      | None => None
      | Some gm =>
          let existing_indices := match gm_get gp gm with Some used => used | None => [] end in
          match first_free existing_indices with
          | Some next_idx =>
              let new_t_name :=
                String.append (prefix_str gp) (String.append "_" (string_of_nat next_idx)) in
              Some (mkLoop (gm_set gp (set_add (Z.of_nat next_idx) existing_indices) gm)
                           (l_overwrite ls) (l_kept ls ++ [rename t new_t_name])
                           (l_new_names ls ++ [new_t_name]))
          | None => Some (mkLoop gm (l_overwrite ls) (l_kept ls ++ [t]) (l_new_names ls))
          end
      end
    else
      (* skipped: [remove_tasks.append(t)] and later removed *)
      Some ls
  else Some (mkLoop (l_groups ls) (l_overwrite ls) (l_kept ls ++ [t]) (l_new_names ls)).

Fixpoint nodup_str (l : list string) : bool :=
  match l with
  | [] => true
  | x :: l' => negb (mem_str x l') && nodup_str l'
  end.

(** Result: the task names of the store afterwards and the returned
    [new_tasks_names]; [None] when an exception escapes ([ValueError] of
    [int], or the unique constraint on [task_name] at the insert). *)
Definition add_db_collection_tasks (store_names : list string)
    (collection_tasks : list ClientTaskConfig) : option (list string * list string) :=
  let task_names := map c_task_name collection_tasks in
  let existing_names := List.filter (fun n => mem_str n task_names) store_names in
  let new_tasks_names :=
    map c_task_name (List.filter (fun t => negb (mem_str (c_task_name t) existing_names))
                       collection_tasks) in
  match fold_opt (loop_step store_names existing_names) collection_tasks
          (mkLoop [] [] [] new_tasks_names) with
  | None => None
  | Some ls =>
      let deleted := map fst (l_overwrite ls) in
      let remaining := List.filter (fun n => negb (mem_str n deleted)) store_names in
      let final := remaining ++ map c_task_name (l_kept ls) in
      if nodup_str final then Some (final, l_new_names ls) else None
  end.

End Reconcile.

(** ** [DatabaseManager.safe_submit_posts] *)

Module Submit.

Fixpoint nodup_Z (l : list Z) : bool :=
  match l with
  | [] => true
  | x :: l' => negb (existsb (Z.eqb x) l') && nodup_Z l'
  end.

(** [post.collection_task_id] under [PRAGMA foreign_keys=ON]
    ([_sqlite_on_connect]): [NULL] or the id of a stored task. *)
Definition fk_ok (st : Store) (p : Post) : bool :=
  match collection_task_id p with
  | None => true
  | Some i => existsb (fun t => Z.eqb (task_id t) i) (tasks st)
  end.

(** The INSERTs of a batch succeed when the [platform_id]s (unique
    constraint) and the ids (primary key; the model's posts carry theirs)
    are pairwise distinct and not stored, and every foreign key holds. *)
Definition insertable (st : Store) (ps : list Post) : bool :=
  let ids := map platform_id ps in
  let keys := map post_id ps in
  Reconcile.nodup_str ids
  && forallb (fun i => negb (mem_str i (stored_ids st))) ids
  && nodup_Z keys
  && forallb (fun k => negb (existsb (Z.eqb k) (map post_id (posts st)))) keys
  && forallb (fk_ok st) ps.

(** [_submit_posts]: [session.add_all(posts); session.commit()]; any of
    the clashes above raises [IntegrityError] ([None]) and the session
    rolls back. *)
Definition submit_posts (st : Store) (ps : list Post) : option Store :=
  if insertable st ps then Some (mkStore (tasks st) (posts st ++ ps)) else None.

(** [while True: try: self._submit_posts(submit_posts); return submit_posts
    except IntegrityError: with self.get_session() as session:
    submit_posts = filter_posts_with_existing_post_ids(posts, session);
    return submit_posts].  Result: the returned list and the store. *)
Definition safe_submit_posts (st : Store) (ps : list Post) : list Post * Store :=
  let submit := ps in
  match submit_posts st submit with
  | Some st' => (submit, st')
  | None =>
      let submit := filter_posts_with_existing_post_ids ps st in
      (submit, st)
  end.

End Submit.

(** ** [c_db_merge.check_for_conflicts] *)

Module Conflicts.

(** What the function prints: a labelled number, a labelled list of task
    names, the list of (name, status, status) triples, or plain text. *)
Inductive PrintItem :=
| PCount (label : string) (n : nat)
| PNames (label : string) (names : list string)
| PTriples (label : string) (l : list (string * CollectionStatus * CollectionStatus))
| PText (s : string).

Record State := mkState {
  diff_status : nat;
  diff_config : nat;
  diff_both_init : nat;
  diff_both_done : nat;
  diff_both_other_status : nat;
  diff_fount_posts : nat;
  source_done_ : list CollectionTask;
  target_done_ : list CollectionTask;
  diff_both_other_status_ : list (string * CollectionStatus * CollectionStatus);
  printed : list PrintItem
}.

(** The inner [update_task(from_db, to_db, from_task_model)]: it loads the
    posts of the task from [from_db], the task of that name and the posts
    with those ids from [to_db], and returns; both sessions commit with
    nothing changed. *)
Definition update_task (from_db to_db : Store) (from_task_model : CollectionTask)
  : unit * Store * Store :=
  let new_posts := posts_of_task from_db from_task_model in
  let new_posts_pids := map platform_id new_posts in
  let target_obj := find_task_by_name (task_name from_task_model) (tasks to_db) in
  let existing_posts :=
    List.filter (fun p => mem_str (platform_id p) new_posts_pids) (posts to_db) in
  (tt, from_db, to_db).

Definition task_names (st : Store) : list string :=
  map task_name (tasks st).

(** [{t.task_name: t for t in ...}]: the last task of a name wins. *)
Definition dict_get (name : string) (ts : list CollectionTask) : option CollectionTask :=
  find_task_by_name name (rev ts).

(** [print(f"Task {t} is different")] *)
Definition conflict_line (t : string) : PrintItem :=
  PText (String.append "Task " (String.append t " is different")).

(** The body of [for t in existing], after [src = src_map[t]] and
    [tgt = tgt_map[t]]. *)
Definition classify (src tgt : CollectionTask) (t : string)
    (acc : State * Store * Store) : State * Store * Store :=
  let '(s, source_db, target_db) := acc in
  if String.eqb (collection_config src) (collection_config tgt) then
    if status_eqb (status src) (status tgt) then
      if status_eqb (status src) INIT then
        (mkState (diff_status s) (diff_config s) (S (diff_both_init s))
           (diff_both_done s) (diff_both_other_status s) (diff_fount_posts s)
           (source_done_ s) (target_done_ s) (diff_both_other_status_ s) (printed s),
         source_db, target_db)
      else if status_eqb (status src) DONE then
        (mkState (diff_status s) (diff_config s) (diff_both_init s)
           (S (diff_both_done s)) (diff_both_other_status s)
           (if opt_Z_eqb (found_items src) (found_items tgt)
            then diff_fount_posts s else S (diff_fount_posts s))
           (source_done_ s) (target_done_ s) (diff_both_other_status_ s) (printed s),
         source_db, target_db)
      else
        (mkState (diff_status s) (diff_config s) (diff_both_init s)
           (diff_both_done s) (diff_both_other_status s) (diff_fount_posts s)
           (source_done_ s) (target_done_ s)
           (diff_both_other_status_ s ++ [(task_name src, status src, status tgt)])
           (printed s),
         source_db, target_db)
    else
      let s := mkState (S (diff_status s)) (diff_config s) (diff_both_init s)
                 (diff_both_done s) (diff_both_other_status s) (diff_fount_posts s)
                 (source_done_ s) (target_done_ s) (diff_both_other_status_ s)
                 (printed s) in
      if status_eqb (status src) INIT && status_eqb (status tgt) DONE then
        (mkState (diff_status s) (diff_config s) (diff_both_init s)
           (diff_both_done s) (diff_both_other_status s) (diff_fount_posts s)
           (source_done_ s) (target_done_ s ++ [tgt]) (diff_both_other_status_ s)
           (printed s),
         source_db, target_db)
      else if status_eqb (status src) DONE && status_eqb (status tgt) INIT then
        let s := mkState (diff_status s) (diff_config s) (diff_both_init s)
                   (diff_both_done s) (diff_both_other_status s) (diff_fount_posts s)
                   (source_done_ s ++ [src]) (target_done_ s)
                   (diff_both_other_status_ s) (printed s) in
        let '(_, source_db, target_db) := update_task source_db target_db src in
        (s, source_db, target_db)
      else (s, source_db, target_db)
  else
    (mkState (diff_status s) (S (diff_config s)) (diff_both_init s)
       (diff_both_done s) (diff_both_other_status s) (diff_fount_posts s)
       (source_done_ s) (target_done_ s) (diff_both_other_status_ s)
       (printed s ++ [conflict_line t]),
     source_db, target_db).

Definition loop_body (f_source_tasks f_target_tasks : list CollectionTask)
    (acc : State * Store * Store) (t : string) : State * Store * Store :=
  match dict_get t f_source_tasks, dict_get t f_target_tasks with
  | Some src, Some tgt => classify src tgt t acc
  | _, _ => acc
  end.

Fixpoint dedup_str (l : list string) : list string :=
  match l with
  | [] => []
  | x :: l' => if mem_str x l' then dedup_str l' else x :: dedup_str l'
  end.

(** The elements of the Python set [existing = source_tasks & target_tasks]:
    the source names that the target also has, each once.  The set is
    iterated in hash order, which [check_for_conflicts] takes as an
    argument. *)
Definition existing_names (source target : Store) : list string :=
  dedup_str (List.filter (fun n => mem_str n (task_names target))
                         (task_names source)).

(** The final [print] calls. *)
Definition report (n_existing : nat) (s : State) : list PrintItem :=
  [PCount "num match" n_existing; PText "---- same hash";
   PCount "diff both init" (diff_both_init s);
   PCount "diff both done" (diff_both_done s); PText "---";
   PCount "diff_fount_posts" (diff_fount_posts s); PText "---";
   PCount "diff both other status" (diff_both_other_status s);
   PCount "diff status" (diff_status s); PText "---";
   PCount "len(source_done_)" (List.length (source_done_ s));
   PCount "len(target_done_)" (List.length (target_done_ s));
   PNames "src done" (map task_name (source_done_ s));
   PNames "target done" (map task_name (target_done_ s));
   PTriples "diff_both_other_status_" (diff_both_other_status_ s);
   PText "---"; PText "------ diff hash";
   PCount "diff conf" (diff_config s)].

(** [DatabaseManager.metadata] ([db_mgmt.py:34]): [None] as the
    constructor sets it, the [MetaDatabase] that
    [PlatformDatabaseModel.get_mgmt(meta_db)] stores, or a
    [PlatformDatabaseModel] (as [MetaDatabase.get_platform_db] sets it). *)
Inductive Metadata :=
| MdNone
| MdMetaDatabase
| MdPlatformDatabase (db_path : string).

(** The argument of [get_db]: a [Path] or a database name. *)
Inductive DbRef :=
| DbPath (p : string)
| DbName (n : string).

Inductive Exn := AttributeError | ValueError.

(** [get_db]: a [Path] goes to [DatabaseManager.sqlite_db_from_path], which
    leaves [metadata] at [None]; a name goes to [MetaDatabase().get_db_mgmt],
    that is [self.get(name).get_mgmt(self)]: [get] raises [ValueError] for
    an unregistered name, [get_mgmt] raises it when the file is missing, and
    otherwise sets [mgmt.metadata = meta_db], the [MetaDatabase] itself.
    [registry] maps a registered name to whether its file exists. *)
Definition get_db (registry : list (string * bool)) (r : DbRef) : Exn + Metadata :=
  match r with
  | DbPath _ => inr MdNone
  | DbName n =>
      match find (fun e => String.eqb (fst e) n) registry with
      | Some (_, true) => inr MdMetaDatabase
      | _ => inl ValueError
      end
  end.

(** Reading [.db_path]: [None] has no attributes, and a [MetaDatabase]
    only has [db]; both raise [AttributeError]. *)
Definition attr_db_path (m : Metadata) : Exn + string :=
  match m with
  | MdPlatformDatabase p => inr p
  | MdNone | MdMetaDatabase => inl AttributeError
  end.

(** The whole function: [get_db] on both arguments, the two
    [print(f"{..._db.metadata.db_path=}")] calls, then the analysis.  When it
    returns, it returns [None] ([tt]), having printed, with both stores as
    they are after the loop.  [set_iter] is the iteration order of the set
    [existing]. *)
Definition check_for_conflicts (set_iter : list string -> list string)
    (registry : list (string * bool)) (source_ref target_ref : DbRef)
    (source target : Store) : Exn + (unit * list PrintItem * Store * Store) :=
  match get_db registry source_ref, get_db registry target_ref with
  | inl e, _ | inr _, inl e => inl e
  | inr source_md, inr target_md =>
      match attr_db_path source_md, attr_db_path target_md with
      | inl e, _ | inr _, inl e => inl e
      | inr source_path, inr target_path =>
          let existing := set_iter (existing_names source target) in
          let f_source_tasks :=
            List.filter (fun t => mem_str (task_name t) existing) (tasks source) in
          let f_target_tasks :=
            List.filter (fun t => mem_str (task_name t) existing) (tasks target) in
          let '(s, source', target') :=
            fold_left (loop_body f_source_tasks f_target_tasks) existing
              (mkState 0 0 0 0 0 0 [] [] []
                 [PText source_path; PText target_path], source, target) in
          inr (tt, printed s ++ report (List.length existing) s, source', target')
      end
  end.

End Conflicts.

(** ** [DatabaseManager.insert_posts_with_deduplication] *)

Module Insert.

(** The body of [for post in posts]: [unique_posts] and the Python set
    [posts_ids] (a duplicate-free list). *)
Definition dedup_step (acc : list Post * list string) (post : Post)
  : list Post * list string :=
  let '(unique_posts, posts_ids) := acc in
  if mem_str (platform_id post) posts_ids then acc
  else (unique_posts ++ [post], posts_ids ++ [platform_id post]).

(** [existing_ids] are the stored ids among [posts_ids]; [session.add_all]
    and [session.commit] behave as [_submit_posts]; the result is the
    models of [filtered_posts]. *)
Definition insert_posts_with_deduplication (st : Store) (ps : list Post)
  : option (list Post * Store) :=
  let '(unique_posts, posts_ids) := fold_left dedup_step ps ([], []) in
  let existing_ids := List.filter (fun q => mem_str q posts_ids) (stored_ids st) in
  let filtered_posts :=
    List.filter (fun p => negb (mem_str (platform_id p) existing_ids)) unique_posts in
  match Submit.submit_posts st filtered_posts with
  | Some st' => Some (filtered_posts, st')
  | None => None
  end.

End Insert.

(** ** [db_operations.find_tasks_groups] *)

Module Groups.

(** [$] matches at the end of the text or before a final newline. *)
Definition dollar (r : list ascii) : bool :=
  match r with
  | [] => true
  | [c] => Ascii.eqb c "010"%char
  | _ => false
  end.

Fixpoint digit_run (l : list ascii) : nat :=
  match l with
  | c :: l' => if Reconcile.is_digit c then S (digit_run l') else 0
  | [] => 0
  end.

(** [(\d+)$] at one position: the greedy [\d+], then backtracking to
    shorter runs until [$] matches. *)
Fixpoint try_len (k : nat) (l : list ascii) : option (list ascii) :=
  match k with
  | O => None
  | S k' => if dollar (skipn k l) then Some (firstn k l) else try_len k' l
  end.

Definition match_at (l : list ascii) : option (list ascii) :=
  try_len (digit_run l) l.

(** [re.search]: the leftmost position where the pattern matches; the
    result is [group(1)]. *)
Fixpoint search_from (l : list ascii) : option (list ascii) :=
  match match_at l with
  | Some g => Some g
  | None => match l with [] => None | _ :: l' => search_from l' end
  end.

Fixpoint is_prefix (p l : list ascii) : bool :=
  match p, l with
  | [], _ => true
  | c :: p', d :: l' => Ascii.eqb c d && is_prefix p' l'
  | _, [] => false
  end.

(** [str.rfind(sub)]: the highest index where [sub] occurs, or -1. *)
Fixpoint rfind_from (sub s : list ascii) (i : nat) : Z :=
  match s with
  | [] => if is_prefix sub [] then Z.of_nat i else (-1)%Z
  | _ :: s' =>
      let r := rfind_from sub s' (S i) in
      if (0 <=? r)%Z then r else if is_prefix sub s then Z.of_nat i else (-1)%Z
  end.

Definition rfind (s sub : list ascii) : Z := rfind_from sub s 0.

(** [name[:j]], with Python's reading of a negative [j]. *)
Definition slice_to (l : list ascii) (j : Z) : list ascii :=
  let n := Z.of_nat (List.length l) in
  let j := if (j <? 0)%Z then Z.max 0 (n + j) else j in
  firstn (Z.to_nat j) l.

(** [groups]: a [defaultdict(list)], in first-insertion order. *)
Definition GroupDict := list (string * list (Z * CollectionStatus)).

Fixpoint g_append (k : string) (v : Z * CollectionStatus) (g : GroupDict) : GroupDict :=
  match g with
  | [] => [(k, [v])]
  | (k', l) :: g' => if String.eqb k k' then (k', l ++ [v]) :: g'
                     else (k', l) :: g_append k v g'
  end.

(** The body of [for task_data in session.execute(select(task_name, status))];
    a [ValueError] of [int] aborts the call ([None]). *)
Definition group_step (g : GroupDict) (row : string * CollectionStatus)
  : option GroupDict :=
  let '(name, st) := row in
  let cs := list_ascii_of_string name in
  match search_from cs with
  | Some group_id =>
      let prefix := string_of_list_ascii (slice_to cs (rfind cs group_id)) in
      match Reconcile.python_int (string_of_list_ascii group_id) with
      | Some k => Some (g_append prefix (k, st) g)
      | None => None
      end
  | None => Some g
  end.

(** Python's [<] on [(int, CollectionStatus)] tuples: the first differing
    items decide; two different members of an [Enum] have no order, so
    [<] between them raises [TypeError] ([None]). *)
Definition tuple_lt (a b : Z * CollectionStatus) : option bool :=
  if Z.eqb (fst a) (fst b) then
    if status_eqb (snd a) (snd b) then Some false else None
  else Some (Z.ltb (fst a) (fst b)).

Fixpoint insert_sorted (x : Z * CollectionStatus) (l : list (Z * CollectionStatus))
  : option (list (Z * CollectionStatus)) :=
  match l with
  | [] => Some [x]
  | y :: l' =>
      match tuple_lt x y with
      | None => None
      | Some true => Some (x :: y :: l')
      | Some false => option_map (cons y) (insert_sorted x l')
      end
  end.

(** [list.sort()], as a stable insertion sort driven by [<].  A comparison
    sort must compare two entries of equal index and different status
    whenever the list has such a pair (nothing else orders them), so the
    [TypeError] is raised exactly when this sort raises it; otherwise the
    sorted list is the same. *)
Definition sort_list (l : list (Z * CollectionStatus))
  : option (list (Z * CollectionStatus)) :=
  fold_opt (fun s x => insert_sorted x s) l [].

Definition task_rows (st : Store) : list (string * CollectionStatus) :=
  map (fun t => (task_name t, status t)) (tasks st).

Definition collect_groups (st : Store) : option GroupDict :=
  fold_opt group_step (task_rows st) [].

Definition find_tasks_groups (st : Store) : option GroupDict :=
  match collect_groups st with
  | Some g => Reconcile.map_opt (fun '(p, l) => option_map (pair p) (sort_list l)) g
  | None => None
  end.

End Groups.

(** ** [db_operations.count_states] *)

Module Counts.

Definition status_name (s : CollectionStatus) : string :=
  match s with
  | INIT => "INIT" | INVALID_CONF => "INVALID_CONF" | RUNNING => "RUNNING"
  | PAUSED => "PAUSED" | ABORTED => "ABORTED" | DONE => "DONE"
  end.

Definition lower (s : string) : string :=
  string_of_list_ascii (map Reconcile.ascii_lower (list_ascii_of_string s)).

(** The column stores the member names; [GROUP BY] returns one row per
    stored value, in the order of the values. *)
Definition stored_order : list CollectionStatus :=
  [ABORTED; DONE; INIT; INVALID_CONF; PAUSED; RUNNING].

Definition count_status (s : CollectionStatus) (ts : list CollectionTask) : nat :=
  List.length (List.filter (fun t => status_eqb (status t) s) ts).

(** [{enum_type.name.lower(): count for enum_type, count in results}] *)
Definition count_states (st : Store) : list (string * nat) :=
  map (fun s => (lower (status_name s), count_status s (tasks st)))
      (List.filter (fun s => 0 <? count_status s (tasks st)) stored_order).

(** [d[k]] on the returned dict; [None] is a [KeyError]. *)
Definition dict_lookup (k : string) (d : list (string * nat)) : option nat :=
  option_map snd (find (fun kv => String.eqb (fst kv) k) d).

End Counts.

(** ** Task maintenance in [db_mgmt.py] *)

Module TaskOps.

Definition mem_Z (i : Z) (l : list Z) : bool := existsb (Z.eqb i) l.

Definition set_status (t : CollectionTask) (s : CollectionStatus) : CollectionTask :=
  mkTask (task_id t) (task_name t) (task_platform t) (collection_config t) s
    (found_items t) (added_items t).

Definition in_states (states : list CollectionStatus) (t : CollectionTask) : bool :=
  existsb (status_eqb (status t)) states.

(** [DatabaseManager.reset_collection_task_states]: the selected tasks get
    status INIT; [c] counts them. *)
Definition reset_collection_task_states (st : Store) (states : list CollectionStatus)
  : nat * Store :=
  let sel := List.filter (in_states states) (tasks st) in
  let c := fold_left (fun c _ => S c) sel 0 in
  (c, mkStore (map (fun t => if in_states states t then set_status t INIT else t) (tasks st))
              (posts st)).

Definition default_reset_states : list CollectionStatus := [RUNNING; ABORTED].

Definition detach (p : Post) : Post :=
  mkPost (post_id p) (post_platform p) (platform_id p) None (orig_db_conf p).

Definition fk_in (ids : list Z) (p : Post) : bool :=
  match collection_task_id p with Some i => mem_Z i ids | None => false end.

(** [DatabaseManager.delete_tasks]: the posts of the tasks to keep posts of
    lose their foreign key; then the tasks are deleted, and the SQLite
    foreign key [ON DELETE CASCADE] (with [pragma foreign_keys=ON]) deletes
    the posts still pointing at them. *)
Definition delete_tasks (st : Store) (task_names_keep_info : list (string * bool)) : Store :=
  let keep_posts_of_tasks := map fst (List.filter snd task_names_keep_info) in
  let ps :=
    match keep_posts_of_tasks with
    | [] => posts st
    | _ =>
        let keep_posts_ids :=
          map task_id (List.filter (fun t => mem_str (task_name t) keep_posts_of_tasks)
                         (tasks st)) in
        map (fun p => if fk_in keep_posts_ids p then detach p else p) (posts st)
    end in
  let task_names := map fst task_names_keep_info in
  let deleted_ids :=
    map task_id (List.filter (fun t => mem_str (task_name t) task_names) (tasks st)) in
  mkStore (List.filter (fun t => negb (mem_str (task_name t) task_names)) (tasks st))
          (List.filter (fun p => negb (fk_in deleted_ids p)) ps).

(** The fields of [CollectionResult] that [update_task_results] reads. *)
Record CollectionResult := mkResult {
  res_task_id : Z;
  res_transient : bool;
  res_added_posts : list Post;
  res_collected_items : Z
}.

(** [session.query(DBCollectionTask).get(id)] *)
Definition get_task (st : Store) (i : Z) : option CollectionTask :=
  find (fun t => Z.eqb (task_id t) i) (tasks st).

(** [DatabaseManager.update_task_results]: a missing task is [None] in
    Python, and both [session.delete(None)] and [None.status = ...] raise
    ([None]).  A transient task is deleted with its posts (relationship
    cascade ["all, delete, delete-orphan"]). *)
Definition update_task_results (st : Store) (r : CollectionResult) : option Store :=
  match get_task st (res_task_id r) with
  | None => None
  | Some tr =>
      if res_transient r then
        Some (mkStore (List.filter (fun t => negb (Z.eqb (task_id t) (task_id tr))) (tasks st))
                      (List.filter (fun p => negb (fk_in [task_id tr] p)) (posts st)))
      else
        Some (mkStore (replace_task
                         (mkTask (task_id tr) (task_name tr) (task_platform tr)
                            (collection_config tr) DONE (Some (res_collected_items r))
                            (Some (Z.of_nat (List.length (res_added_posts r)))))
                         (tasks st))
                      (posts st))
  end.

(** [DatabaseManager.get_tasks_of_states]: [status.in_(states)], negated
    with [~] when [negate]; [status] is NOT NULL, so the negation is the
    complement.  Each row is converted one-for-one to a [ClientTaskConfig];
    the rows are returned. *)
Definition get_tasks_of_states (st : Store) (states : list CollectionStatus) (negate : bool)
  : list CollectionTask :=
  List.filter (fun t => if negate then negb (in_states states t) else in_states states t)
    (tasks st).

(** [DatabaseManager.get_pending_tasks] *)
Definition get_pending_tasks (st : Store) (include_paused_tasks : bool) : list CollectionTask :=
  let states := if include_paused_tasks then [INIT; PAUSED] else [INIT] in
  get_tasks_of_states st states false.

(** [db_operations.reset_task_states]: a bulk update of the tasks whose id
    is in [tasks_ids]. *)
Definition reset_task_states (st : Store) (tasks_ids : list Z) : Store :=
  mkStore (map (fun t => if mem_Z (task_id t) tasks_ids then set_status t INIT else t) (tasks st))
          (posts st).

End TaskOps.

(** Every post's foreign key names a stored task. *)
Definition fk_integrity (st : Store) : Prop :=
  forall p i, In p (posts st) -> collection_task_id p = Some i ->
  exists t, In t (tasks st) /\ task_id t = i.

(** ** Sample stores (spec, section 8, scenario B) *)

Definition sample_post (i : Z) (pid : string) (tid : Z) : Post :=
  mkPost i "tiktok" pid (Some tid) None.

Definition sample_target : Store :=
  mkStore [mkTask 1 "t1" "tiktok" "{q: a}" INIT (Some 5%Z) None]
    (map (fun '(i, pid) => sample_post i pid 1)
       ([(1, "p1"%string); (2, "p2"%string); (3, "p3"%string); (4, "p4"%string); (5, "p5"%string)]%Z
        : list (Z * string))).

Definition sample_source_task : CollectionTask :=
  mkTask 7 "t1" "tiktok" "{q: a}" DONE (Some 10%Z) (Some 10%Z).

Definition sample_source : Store :=
  mkStore [sample_source_task]
    (map (fun '(i, pid) => sample_post i pid 7)
       ([(1, "p1"%string); (2, "p2"%string); (3, "p3"%string); (4, "p4"%string); (5, "p5"%string);
        (6, "p6"%string); (7, "p7"%string); (8, "p8"%string); (9, "p9"%string); (10, "p10"%string)]%Z
        : list (Z * string))).

(** The target of scenario B once it also holds [p6]..[p10]. *)
Definition sample_target_full : Store :=
  mkStore (tasks sample_target)
    (posts sample_target
     ++ map (fun '(i, pid) => sample_post i pid 1)
          ([(6, "p6"%string); (7, "p7"%string); (8, "p8"%string); (9, "p9"%string);
            (10, "p10"%string)]%Z : list (Z * string))).

Definition sample_path : string := "data/col_db/tiktok/source.sqlite".

(** A source whose only task has 501 posts, and an empty target. *)
Definition bulk_task : CollectionTask :=
  mkTask 1 "bulk" "tiktok" "{q: b}" DONE (Some 501%Z) (Some 501%Z).

Definition bulk_source : Store :=
  mkStore [bulk_task]
    (map (fun n => sample_post (Z.of_nat n)
                     (String.append "v" (Reconcile.string_of_nat n)) 1)
         (seq 1 501)).

Definition empty_store : Store := mkStore [] [].

(** A store holding the tasks [grp_0] and [grp_2] of group [grp], a store
    that also holds the task [grp_sub_0] of a group [grp_sub], and a
    candidate forced into group [grp]. *)
Definition grp_store_names : list string := ["grp_0"; "grp_2"]%string.

Definition grp_sub_store_names : list string := ["grp_0"; "grp_2"; "grp_sub_0"]%string.

Definition grp_candidate : Reconcile.ClientTaskConfig :=
  Reconcile.mkClient "grp_0" false false (Some "grp"%string) true.

(** ** Specification predicates and samples for the further properties *)

Definition del_store : Store :=
  mkStore [mkTask 1 "a" "tiktok" "{}" DONE None None; mkTask 2 "b" "tiktok" "{}" DONE None None]
          [sample_post 1 "p1" 1; sample_post 2 "p2" 2].

Definition gm_covers (S : list string) (gm : Reconcile.GroupMap) : Prop :=
  forall gp v k, Reconcile.gm_get gp gm = Some v ->
    In (String.append (Reconcile.prefix_str gp) (String.append "_" (Reconcile.string_of_nat k))) S ->
    In (Z.of_nat k) v.

Definition conflict (l : list (Z * CollectionStatus)) : Prop :=
  exists a b, In a l /\ In b l /\ fst a = fst b /\ snd a <> snd b.

Definition idx_le (a b : Z * CollectionStatus) : Prop := (fst a <= fst b)%Z.

Definition entry (p : string) (v : Z * CollectionStatus) (g : Groups.GroupDict) : Prop :=
  exists l, In (p, l) g /\ In v l.

Definition row_entry (name : string) (p : string) (k : Z) : Prop :=
  exists pre gid e, list_ascii_of_string name = pre ++ gid ++ e
    /\ gid <> [] /\ Forall (fun c => Reconcile.is_digit c = true) gid
    /\ (e = [] \/ e = ["010"%char])
    /\ (forall pre' c, pre = pre' ++ [c] -> Reconcile.is_digit c = false)
    /\ p = string_of_list_ascii pre
    /\ Reconcile.python_int (string_of_list_ascii gid) = Some k.

Definition ends_in_digit (name : string) : Prop :=
  exists pre c e, list_ascii_of_string name = pre ++ [c] ++ e
    /\ Reconcile.is_digit c = true /\ (e = [] \/ e = ["010"%char]).

(** The database accepts the INSERTs of [ps] into [st] (see
    [Submit.insertable]). *)
Definition submittable (st : Store) (ps : list Post) : Prop :=
  NoDup (map platform_id ps)
  /\ (forall p, In p ps -> ~ In (platform_id p) (stored_ids st))
  /\ NoDup (map post_id ps)
  /\ (forall p, In p ps -> ~ In (post_id p) (map post_id (posts st)))
  /\ (forall p i, In p ps -> collection_task_id p = Some i ->
                  exists t, In t (tasks st) /\ task_id t = i).

(** ** Basic facts *)

Lemma status_eqb_spec a b : status_eqb a b = true <-> a = b.
Proof. destruct a, b; simpl; split; congruence. Qed.

Lemma mem_str_In x l : mem_str x l = true <-> In x l.
Proof.
  unfold mem_str; rewrite existsb_exists; split.
  - intros [y [Hy Heq]]; apply String.eqb_eq in Heq; subst; exact Hy.
  - intros H; exists x; split; [exact H | apply String.eqb_refl].
Qed.

Lemma mem_str_app x l1 l2 : mem_str x (l1 ++ l2) = mem_str x l1 || mem_str x l2.
Proof. unfold mem_str; apply existsb_app. Qed.

(** The stored ids restricted to the candidate ids answer membership
    questions about candidate ids like the whole id list does. *)
Lemma mem_found_ids (ps : list Post) (target : Store) (p : Post) :
  In p ps ->
  mem_str (platform_id p)
    (filter (fun q => mem_str q (map platform_id ps)) (stored_ids target))
  = mem_str (platform_id p) (stored_ids target).
Proof.
  intros Hin.
  assert (Hp : In (platform_id p) (map platform_id ps)) by (apply in_map; exact Hin).
  destruct (mem_str (platform_id p) (stored_ids target)) eqn:E.
  - apply mem_str_In; apply filter_In; split.
    + apply mem_str_In; exact E.
    + apply mem_str_In; exact Hp.
  - destruct (mem_str (platform_id p) (filter _ _)) eqn:E2; [|reflexivity].
    apply mem_str_In, filter_In in E2; destruct E2 as [E2 _].
    apply mem_str_In in E2; congruence.
Qed.

Lemma filter_posts_eq (ps : list Post) (target : Store) :
  filter_posts_with_existing_post_ids ps target
  = filter (fun p => negb (mem_str (platform_id p) (stored_ids target))) ps.
Proof.
  unfold filter_posts_with_existing_post_ids.
  apply filter_ext_in; intros p Hin; rewrite mem_found_ids by exact Hin;
    reflexivity.
Qed.

Lemma find_task_replace (n : string) (et et' : CollectionTask) ts :
  find_task_by_name n ts = Some et ->
  task_name et' = n -> task_id et' = task_id et ->
  find_task_by_name n (replace_task et' ts) = Some et'.
Proof.
  unfold find_task_by_name, replace_task.
  induction ts as [|t ts IH]; simpl; intros Hf Hn Hi; [discriminate|].
  destruct (String.eqb (task_name t) n) eqn:Et.
  - injection Hf as <-.
    rewrite Hi, Z.eqb_refl; simpl; rewrite Hn, String.eqb_refl; reflexivity.
  - destruct (Z.eqb (task_id t) (task_id et')); simpl.
    + rewrite Hn, String.eqb_refl; reflexivity.
    + rewrite Et; apply IH; assumption.
Qed.

Lemma find_task_app_none (n : string) (nt : CollectionTask) ts :
  find_task_by_name n ts = None -> task_name nt = n ->
  find_task_by_name n (ts ++ [nt]) = Some nt.
Proof.
  unfold find_task_by_name; induction ts as [|t ts IH]; simpl; intros Hf Hn.
  - rewrite Hn, String.eqb_refl; reflexivity.
  - destruct (String.eqb (task_name t) n); [discriminate|]; apply IH; assumption.
Qed.

Lemma filter_all_false {A} (f : A -> bool) l :
  (forall x, In x l -> f x = false) -> filter f l = [].
Proof.
  induction l as [|x l IH]; simpl; intros H; [reflexivity|].
  rewrite (H x (or_introl eq_refl)); apply IH; intros y Hy; apply H; right; exact Hy.
Qed.


(** [first_free] returns the least natural number missing from the set. *)
Lemma first_free_from_spec i fuel used k :
  Reconcile.first_free_from i fuel used = Some k ->
  i <= k /\ ~ In (Z.of_nat k) used
  /\ (forall j, i <= j < k -> In (Z.of_nat j) used).
Proof.
  revert i; induction fuel as [|fuel IH]; simpl; intros i H; [discriminate|].
  destruct (existsb (Z.eqb (Z.of_nat i)) used) eqn:E.
  - destruct (IH _ H) as [H1 [H2 H3]].
    split; [lia|]; split; [exact H2|].
    intros j Hj; destruct (Nat.eq_dec j i) as [->|Hne].
    + apply existsb_exists in E; destruct E as [x [Hx Hx']].
      apply Z.eqb_eq in Hx'; subst; exact Hx.
    + apply H3; lia.
  - injection H as <-; split; [lia|]; split; [|intros j Hj; lia].
    intros Hin.
    assert (existsb (Z.eqb (Z.of_nat i)) used = true)
      by (apply existsb_exists; exists (Z.of_nat i); split; [exact Hin | apply Z.eqb_refl]).
    congruence.
Qed.

Lemma first_free_mex used k :
  Reconcile.first_free used = Some k ->
  ~ In (Z.of_nat k) used /\ (forall j, j < k -> In (Z.of_nat j) used).
Proof.
  unfold Reconcile.first_free; intros H.
  destruct (first_free_from_spec _ _ _ _ H) as [_ [H2 H3]].
  split; [exact H2|]; intros j Hj; apply H3; lia.
Qed.

(** The merge loop followed by the commit of [get_session]. *)
Definition run_merge (path : string) (L : list (CollectionTask * list Post))
    (s : Session) (stats : MergeStats) : option (Session * MergeStats) :=
  match fold_opt (merge_task path) L (s, stats) with
  | Some (s', stats') =>
      match commit s' with
      | Some s'' => Some (s'', stats')
      | None => None
      end
  | None => None
  end.

Lemma merge_database_run path source target :
  merge_database path source target
  = match run_merge path (get_tasks_with_posts source) (mkSession target [] 0 []) empty_stats with
    | Some (s, stats) => Some (sess_store s, stats, sess_commits s)
    | None => None
    end.
Proof.
  unfold merge_database, run_merge.
  destruct (fold_opt _ _ _) as [[s stats]|]; [|reflexivity].
  destruct (commit s); reflexivity.
Qed.

Lemma flush_empty s :
  sess_new s = [] ->
  flush s = Some (mkSession (sess_store s) [] (sess_uncommitted s) (sess_commits s)).
Proof.
  intros H; unfold flush; rewrite H; cbn [fold_opt List.length].
  rewrite Nat.add_0_r; reflexivity.
Qed.

(** A post staged by the merge is bound with the dumped [int] value, which
    the [Enum] column rejects: a flush with such a pending post fails. *)
Lemma flush_dumped s pp l :
  sess_new s = pp :: l -> pending_post_type pp = dump_post_type REGULAR ->
  flush s = None.
Proof.
  intros H Ht; unfold flush; rewrite H; cbn [fold_opt].
  unfold insert_pending; rewrite Ht; reflexivity.
Qed.

Lemma stage_fold path i l s :
  exists added,
    fold_left (stage_post path i) l s
    = mkSession (sess_store s) (sess_new s ++ added) (sess_uncommitted s) (sess_commits s)
    /\ List.length added = List.length l
    /\ Forall (fun pp => pending_post_type pp = dump_post_type REGULAR) added.
Proof.
  revert s; induction l as [|x l IH]; intros s; cbn [fold_left].
  - exists []; rewrite app_nil_r; destruct s; split; [reflexivity|]; split; constructor.
  - destruct (IH (stage_post path i s x)) as [added (E & Hl & Hf)].
    rewrite E; eexists (_ :: added); split.
    + unfold stage_post at 1 2 3 4; cbn [sess_store sess_new sess_uncommitted sess_commits].
      rewrite <- app_assoc; reflexivity.
    + cbn [List.length]; split; [lia|]; constructor; [reflexivity | exact Hf].
Qed.

(** Once a staged post is pending, the rest of the merge raises: the next
    task's query autoflushes, or the final commit flushes. *)
Lemma run_merge_pending path L s stats pp l :
  sess_new s = pp :: l -> pending_post_type pp = dump_post_type REGULAR ->
  run_merge path L s stats = None.
Proof.
  intros H Ht; unfold run_merge; destruct L as [|[tm ps] L]; cbn [fold_opt].
  - unfold commit; rewrite (flush_dumped s pp l H Ht); reflexivity.
  - unfold merge_task at 1, autoflush; rewrite (flush_dumped s pp l H Ht); reflexivity.
Qed.

Lemma filter_posts_same_posts ps st1 st2 :
  posts st1 = posts st2 ->
  filter_posts_with_existing_post_ids ps st1 = filter_posts_with_existing_post_ids ps st2.
Proof. intros H; unfold filter_posts_with_existing_post_ids, stored_ids; rewrite H; reflexivity. Qed.

(** On a session with nothing pending, one iteration of the loop writes no
    post: it updates or adds the task row and stages the posts the
    deduplicator keeps. *)
Lemma merge_task_clean path s stats tm ps :
  sess_new s = [] ->
  let np := filter_posts_with_existing_post_ids ps (sess_store s) in
  exists ts' added,
    List.length added = List.length np
    /\ Forall (fun pp => pending_post_type pp = dump_post_type REGULAR) added
    /\ exists k1 k2,
    merge_task path (s, stats) (tm, ps)
    = match maybe_commit (mkSession (mkStore ts' (posts (sess_store s))) added
                            (sess_uncommitted s) (sess_commits s)) with
      | Some s' => Some (s', mkStats (total_posts_found stats + List.length ps)
                               (duplicated_posts_skipped stats + (List.length ps - List.length np))
                               (new_posts_added stats + List.length np) k1 k2)
      | None => None
      end.
Proof.
  intros Hn np.
  unfold merge_task, autoflush; rewrite (flush_empty s Hn).
  cbv beta iota zeta; cbn [sess_store sess_new sess_uncommitted sess_commits]; fold np.
  unfold process_collection_task, autoflush; rewrite flush_empty by reflexivity.
  cbv beta iota zeta; cbn [sess_store sess_new sess_uncommitted sess_commits].
  destruct (find_task_by_name (task_name tm) _) as [et|]; cbv iota beta.
  - destruct (stage_fold path (task_id (update_existing et tm (List.length np))) np
       (set_tasks (mkSession (sess_store s) [] (sess_uncommitted s) (sess_commits s))
          (replace_task (update_existing et tm (List.length np)) (tasks (sess_store s)))))
      as [added (E & Hl & Hf)].
    rewrite E; exists (replace_task (update_existing et tm (List.length np)) (tasks (sess_store s))), added.
    split; [exact Hl|]; split; [exact Hf|]; do 2 eexists; reflexivity.
  - match goal with |- context [fold_left (stage_post path ?i) np ?s0] =>
      destruct (stage_fold path i np s0) as [added (E & Hl & Hf)]; rewrite E end.
    eexists; exists added; split; [exact Hl|]; split; [exact Hf|]; do 2 eexists; reflexivity.
Qed.
Lemma run_merge_cons path tp L s stats :
  run_merge path (tp :: L) s stats
  = match merge_task path (s, stats) tp with
    | Some (s1, st1) => run_merge path L s1 st1
    | None => None
    end.
Proof.
  unfold run_merge; cbn [fold_opt].
  destruct (merge_task path (s, stats) tp) as [[s1 st1]|]; reflexivity.
Qed.

(** The merge raises exactly when some source task has a post that the
    deduplicator keeps; otherwise no post is written, the only commit is the
    final one, and no post is counted as added. *)
Lemma run_merge_spec path L s stats :
  sess_new s = [] ->
  match run_merge path L s stats with
  | Some (s', stats') =>
      (forall tp, In tp L -> filter_posts_with_existing_post_ids (snd tp) (sess_store s) = [])
      /\ posts (sess_store s') = posts (sess_store s)
      /\ sess_commits s' = sess_commits s ++ [sess_uncommitted s]
      /\ new_posts_added stats' = new_posts_added stats
      /\ total_posts_found stats' = total_posts_found stats + list_sum (map (fun tp => List.length (snd tp)) L)
      /\ duplicated_posts_skipped stats'
         = duplicated_posts_skipped stats + list_sum (map (fun tp => List.length (snd tp)) L)
  | None =>
      exists tp, In tp L /\ filter_posts_with_existing_post_ids (snd tp) (sess_store s) <> []
  end.
Proof.
  revert s stats; induction L as [|[tm ps] L IH]; intros s stats Hn.
  - unfold run_merge; cbn [fold_opt]; unfold commit; rewrite (flush_empty s Hn).
    cbn [sess_store sess_commits sess_uncommitted].
    split; [intros tp []|]; split; [reflexivity|]; split; [reflexivity|].
    split; [reflexivity|]; simpl; split; lia.
  - rewrite run_merge_cons.
    destruct (merge_task_clean path s stats tm ps Hn) as [ts' [added (Hl & Hf & k1 & k2 & E)]].
    rewrite E; clear E.
    set (np := filter_posts_with_existing_post_ids ps (sess_store s)) in *.
    destruct np as [|x rest] eqn:Enp.
    + (* no new post: the iteration only touches the task rows *)
      destruct added as [|pp added]; [|discriminate].
      unfold maybe_commit; cbn [sess_new List.length]; change (batch_size <=? 0) with false.
      cbv iota beta.
      match goal with |- context [run_merge path L ?s1 ?st1] =>
        specialize (IH s1 st1 eq_refl);
        destruct (run_merge path L s1 st1) as [[s2 st2]|] end;
      cbn [sess_store sess_commits sess_uncommitted posts new_posts_added
           total_posts_found duplicated_posts_skipped] in *.
      * destruct IH as (Hall & Hp & Hc & Ha & Ht & Hd).
        split; [intros tp [<- | Hin];
                [exact Enp | erewrite filter_posts_same_posts; [exact (Hall tp Hin) | reflexivity]]|].
        split; [exact Hp|]; split; [exact Hc|].
        cbn [map list_sum snd] in *; simpl; simpl in Ht, Hd; lia.
      * destruct IH as [tp [Hin Hne]]; exists tp; split; [right; exact Hin|].
        erewrite filter_posts_same_posts; [exact Hne | reflexivity].
    + (* a new post: it is staged, and the next flush raises *)
      destruct added as [|pp added]; [discriminate|].
      apply Forall_cons_iff in Hf; destruct Hf as [Hpp _].
      assert (Hex : exists tp, In tp ((tm, ps) :: L)
                    /\ filter_posts_with_existing_post_ids (snd tp) (sess_store s) <> [])
        by (exists (tm, ps); split; [left; reflexivity|]; cbn [snd]; fold np; rewrite Enp;
            discriminate).
      unfold maybe_commit; destruct (batch_size <=? _).
      * unfold commit.
        rewrite (flush_dumped (mkSession _ (pp :: added) _ _) pp added eq_refl Hpp).
        exact Hex.
      * rewrite (run_merge_pending path L (mkSession _ (pp :: added) _ _) _ pp added eq_refl Hpp).
        exact Hex.
Qed.

(** Neither metadata object [get_db] can give has a [db_path]. *)
Lemma get_db_no_db_path registry r md :
  Conflicts.get_db registry r = inr md -> Conflicts.attr_db_path md = inl Conflicts.AttributeError.
Proof.
  destruct r as [p|n]; cbn [Conflicts.get_db].
  - intros H; injection H as <-; reflexivity.
  - destruct (find _ registry) as [[n' [|]]|]; intros H; try discriminate.
    injection H as <-; reflexivity.
Qed.

(** Whichever way [merge_database] ends, the target's posts are the ones it
    had: when it returns, the source had no post missing from the target. *)
Lemma merge_database_outcome path source target :
  match merge_database path source target with
  | Some (t, stats, log) =>
      (forall tp, In tp (get_tasks_with_posts source) ->
                  filter_posts_with_existing_post_ids (snd tp) target = [])
      /\ posts t = posts target
      /\ log = [0]
      /\ new_posts_added stats = 0
      /\ duplicated_posts_skipped stats = total_posts_found stats
  | None =>
      exists tp, In tp (get_tasks_with_posts source)
                 /\ filter_posts_with_existing_post_ids (snd tp) target <> []
  end.
Proof.
  rewrite merge_database_run.
  pose proof (run_merge_spec path (get_tasks_with_posts source)
                (mkSession target [] 0 []) empty_stats eq_refl) as H.
  destruct (run_merge _ _ _ _) as [[s stats]|]; [|exact H].
  cbn [sess_store sess_commits sess_uncommitted empty_stats new_posts_added
       total_posts_found duplicated_posts_skipped] in H.
  destruct H as (Hall & Hp & Hc & Ha & Ht & Hd).
  split; [exact Hall|]; split; [exact Hp|]; split; [exact Hc|]; split; lia.
Qed.

(** ** Claims about the merge engine *)

(** C10: [filter_posts_with_existing_post_ids] returns exactly the posts of
    its input, in input order, whose [platform_id] is not stored in the
    target; it does not deduplicate its own input: two input posts sharing
    an id absent from the target are both kept. *)
Theorem filter_posts_exact_sublist (ps : list Post) (target : Store) :
  filter_posts_with_existing_post_ids ps target
  = filter (fun p => negb (mem_str (platform_id p) (stored_ids target))) ps
  /\ (forall p q, In p ps -> In q ps -> platform_id p = platform_id q ->
        ~ In (platform_id p) (stored_ids target) ->
        In p (filter_posts_with_existing_post_ids ps target)
        /\ In q (filter_posts_with_existing_post_ids ps target)).
Proof.
  split; [apply filter_posts_eq|].
  intros p q Hp Hq Heq Hnot; rewrite filter_posts_eq.
  assert (Hf : mem_str (platform_id p) (stored_ids target) = false).
  { destruct (mem_str _ _) eqn:E; [|reflexivity].
    exfalso; apply Hnot, mem_str_In; exact E. }
  split; apply filter_In; split; try assumption;
    [rewrite Hf | rewrite <- Heq, Hf]; reflexivity.
Qed.

(** C1 (evaluation of the code): [merge_database] never writes a post: when
    it returns, the target holds the posts it had.  On scenario B, where
    [p6]..[p10] are new, the first flush of a staged post rejects its
    dumped [post_type] and the whole call raises and rolls back; [p6] stays
    absent, so a second run finds it new again and raises too. *)
Theorem merge_database_writes_no_post :
  (forall path source target,
     match merge_database path source target with
     | Some (t, _, _) => posts t = posts target
     | None => True
     end)
  /\ merge_database sample_path sample_source sample_target = None
  /\ In "p6"%string (stored_ids sample_source)
  /\ ~ In "p6"%string (stored_ids sample_target).
Proof.
  split.
  - intros path source target; pose proof (merge_database_outcome path source target) as H.
    destruct (merge_database path source target) as [[[t st] log]|]; [|exact I].
    destruct H as (_ & Hp & _); exact Hp.
  - split; [vm_compute; reflexivity|]; split; [vm_compute; tauto|].
    vm_compute; intros H; repeat (destruct H as [H | H]; [discriminate|]); exact H.
Qed.

(** C2 (evaluation of the code): on scenario B the five new posts should
    raise [found_items] of the target task [t1] from 5 to 10, but the merge
    raises and rolls back, and [t1] keeps [found_items = 5].  A merge that
    returns has no new post for any task, so it adds 0 to the counters. *)
Theorem merge_counters_not_kept :
  merge_database sample_path sample_source sample_target = None
  /\ List.length (filter_posts_with_existing_post_ids
                    (posts_of_task sample_source sample_source_task) sample_target) = 5
  /\ map found_items (tasks sample_target) = [Some 5%Z]
  /\ (forall path source target,
        match merge_database path source target with
        | Some _ => forall tp, In tp (get_tasks_with_posts source) ->
                     filter_posts_with_existing_post_ids (snd tp) target = []
        | None => True
        end).
Proof.
  split; [vm_compute; reflexivity|]; split; [vm_compute; reflexivity|].
  split; [reflexivity|].
  intros path source target; pose proof (merge_database_outcome path source target) as H.
  destruct (merge_database path source target) as [[[t st] log]|]; [|exact I].
  destruct H as (Hall & _); exact Hall.
Qed.

(** C3 (evaluation of the code): on scenario B the source task [t1] is DONE
    and the target task [t1] INIT; the merge raises (the new posts cannot be
    flushed) and the target task stays INIT.  Against the target that
    already holds [p1]..[p10], where no post is new, the merge returns and
    [t1] becomes DONE. *)
Theorem merge_status_not_kept :
  merge_database sample_path sample_source sample_target = None
  /\ status sample_source_task = DONE
  /\ map status (tasks sample_target) = [INIT]
  /\ exists t st log,
       merge_database sample_path sample_source sample_target_full = Some (t, st, log)
       /\ map status (tasks t) = [DONE].
Proof.
  split; [vm_compute; reflexivity|]; split; [reflexivity|]; split; [reflexivity|].
  do 3 eexists; split; [vm_compute; reflexivity|]; reflexivity.
Qed.

(** C6 (evaluation of the code): the post [p6] of scenario B is staged with
    foreign key 1, the target task's id, and stamped [(path, 1)], not with
    its source task id 7; its [post_type] is dumped to the [int] 1.  The
    merge then raises at the flush, so [p6] is not stored at all. *)
Theorem merge_provenance_not_stored :
  sess_new (stage_post sample_path 1 (mkSession sample_target [] 0 [])
              (sample_post 6 "p6" 7))
  = [mkPending "tiktok" "p6" (Some 1%Z) (Some (sample_path, Some 1%Z)) (PTInt 1)]
  /\ merge_database sample_path sample_source sample_target = None
  /\ ~ In "p6"%string (stored_ids sample_target).
Proof.
  split; [reflexivity|]; split; [vm_compute; reflexivity|].
  vm_compute; intros H; repeat (destruct H as [H | H]; [discriminate|]); exact H.
Qed.

(** C9 (evaluation of the code): a source task with 501 new posts stages
    all of them before [len(target_session.new) >= 500] is tested, so the
    batch commit would cover 501 posts; that commit flushes them and
    raises, and so does [merge_database].  A merge that returns made one
    commit, of no post. *)
Theorem merge_batch_commit_raises :
  let s0 := mkSession (mkStore [clone_task bulk_task 1 501] []) [] 0 [] in
  let s := fold_left (stage_post sample_path 1)
             (filter_posts_with_existing_post_ids (posts_of_task bulk_source bulk_task)
                empty_store) s0 in
  List.length (sess_new s) = 501
  /\ commit s = None
  /\ merge_database sample_path bulk_source empty_store = None
  /\ (forall path source target,
        match merge_database path source target with
        | Some (_, _, log) => log = [0]
        | None => True
        end).
Proof.
  intros s0 s.
  split; [vm_compute; reflexivity|]; split; [vm_compute; reflexivity|].
  split; [vm_compute; reflexivity|].
  intros path source target; pose proof (merge_database_outcome path source target) as H.
  destruct (merge_database path source target) as [[[t st] log]|]; [|exact I].
  destruct H as (_ & _ & Hl & _); exact Hl.
Qed.

(** ** Claims about the reconciler, the write path and the analyzer *)

(** C4 (evaluation of the code): with stored tasks [grp_0] and [grp_2] a
    candidate forced into group [grp] is renamed [grp_1]; once the store
    also holds [grp_sub_0] (matched by the unescaped pattern [grp_%]), the
    index query evaluates [int("sub_0")], which raises, and no task is
    added. *)
Theorem reconcile_group_index_breaks_on_other_names :
  Reconcile.add_db_collection_tasks grp_store_names [grp_candidate]
  = Some (["grp_0"; "grp_2"; "grp_1"]%string, ["grp_1"]%string)
  /\ Reconcile.like "grp_sub_0" "grp_%" = true
  /\ Reconcile.python_int (Reconcile.removeprefix "grp_sub_0" "grp_") = None
  /\ Reconcile.add_db_collection_tasks grp_sub_store_names [grp_candidate] = None.
Proof. repeat split; vm_compute; reflexivity. Qed.

(** C5 (evaluation of the code): submitting [p1] (already stored) together
    with the new [p9] raises [IntegrityError]; the handler filters the batch
    to [p9] and returns it without submitting it again, so [p9] is not
    stored. *)
Theorem safe_submit_returns_unsubmitted :
  let batch := [sample_post 20 "p1" 1; sample_post 21 "p9" 1] in
  Submit.submit_posts sample_target batch = None
  /\ Submit.safe_submit_posts sample_target batch
     = ([sample_post 21 "p9" 1], sample_target)
  /\ ~ In "p9"%string (stored_ids (snd (Submit.safe_submit_posts sample_target batch))).
Proof.
  split; [vm_compute; reflexivity|]; split; [vm_compute; reflexivity|].
  vm_compute; intros H; repeat (destruct H as [H | H]; [discriminate|]); exact H.
Qed.

(** C7 (evaluation of the code): [check_for_conflicts] raises before it
    reads a task: both [get_db] results have a [metadata] without
    [db_path] ([None] for a [Path]), so the first [print] raises
    [AttributeError].  On scenario B, where [t1] is DONE in the source and
    INIT in the target, nothing is copied; and the [update_task] the loop
    would call leaves the target as it is, without [p6]. *)
Theorem conflicts_catch_up_raises :
  (forall set_iter registry,
     Conflicts.check_for_conflicts set_iter registry
       (Conflicts.DbPath "source.sqlite") (Conflicts.DbPath "target.sqlite")
       sample_source sample_target
     = inl Conflicts.AttributeError)
  /\ (let '(_, _, target') :=
        Conflicts.update_task sample_source sample_target sample_source_task in
      target' = sample_target /\ ~ In "p6"%string (stored_ids target'))
  /\ In "p6"%string (stored_ids sample_source).
Proof.
  split; [intros; reflexivity|]; split.
  - split; [reflexivity|].
    vm_compute; intros H; repeat (destruct H as [H | H]; [discriminate|]); exact H.
  - vm_compute; tauto.
Qed.

(** C8 (evaluation of the code): [check_for_conflicts] never returns, so it
    returns no report: for every pair of arguments it raises, at the latest
    at [print(f"{source_db.metadata.db_path=}")], which raises
    [AttributeError] whenever [get_db] succeeds on both arguments. *)
Theorem conflicts_never_returns :
  forall set_iter registry source_ref target_ref source target,
    match Conflicts.check_for_conflicts set_iter registry source_ref target_ref source target with
    | inl e =>
        (exists md, Conflicts.get_db registry source_ref = inr md) ->
        (exists md, Conflicts.get_db registry target_ref = inr md) ->
        e = Conflicts.AttributeError
    | inr _ => False
    end.
Proof.
  intros set_iter registry source_ref target_ref source target.
  unfold Conflicts.check_for_conflicts.
  destruct (Conflicts.get_db registry source_ref) as [e|ms] eqn:Es;
    [intros [md Hmd]; discriminate|].
  destruct (Conflicts.get_db registry target_ref) as [e|mt] eqn:Et;
    [intros _ [md Hmd]; discriminate|].
  rewrite (get_db_no_db_path registry source_ref ms Es).
  intros _ _; reflexivity.
Qed.

(** ** Further properties of the code *)

Lemma nodup_str_spec l : Reconcile.nodup_str l = true <-> NoDup l.
Proof.
  induction l as [|x l IH]; simpl; split; intros H.
  - constructor.
  - reflexivity.
  - apply andb_true_iff in H; destruct H as [H1 H2]; constructor.
    + intros Hin; apply mem_str_In in Hin; rewrite Hin in H1; discriminate.
    + apply IH; exact H2.
  - inversion H as [|? ? Hn Hd]; subst; apply andb_true_iff; split.
    + destruct (mem_str x l) eqn:E; [apply mem_str_In in E; contradiction | reflexivity].
    + apply IH; exact Hd.
Qed.

Lemma NoDup_map_filter {A B} (h : A -> B) (g : A -> bool) l :
  NoDup (map h l) -> NoDup (map h (filter g l)).
Proof.
  induction l as [|x l IH]; simpl; intros H; [constructor|].
  inversion H as [|? ? Hn Hd]; subst.
  destruct (g x); simpl; [constructor|]; try (apply IH; exact Hd).
  intros Hin; apply in_map_iff in Hin; destruct Hin as [y [Hy Hin]].
  apply filter_In in Hin; apply Hn; rewrite <- Hy; apply in_map; tauto.
Qed.

Lemma dedup_fold ps u0 :
  NoDup (map platform_id u0) ->
  exists u1,
    fold_left Insert.dedup_step ps (u0, map platform_id u0)
      = (u0 ++ u1, map platform_id (u0 ++ u1))
    /\ NoDup (map platform_id (u0 ++ u1))
    /\ (forall q, In q u1 -> In q ps)
    /\ (forall p, In p ps -> In (platform_id p) (map platform_id (u0 ++ u1))).
Proof.
  revert u0; induction ps as [|x ps IH]; cbn [fold_left]; intros u0 Hnd.
  - exists []; rewrite app_nil_r; repeat split; auto; intros q [].
  - destruct (mem_str (platform_id x) (map platform_id u0)) eqn:E.
    + assert (Hs : Insert.dedup_step (u0, map platform_id u0) x = (u0, map platform_id u0))
        by (unfold Insert.dedup_step; rewrite E; reflexivity).
      rewrite Hs.
      destruct (IH u0 Hnd) as [u1 (H1 & H2 & H3 & H4)].
      exists u1; rewrite H1; split; [reflexivity|]; split; [exact H2|]; split.
      * intros q Hq; right; apply H3; exact Hq.
      * intros p Hp; destruct Hp as [<- | Hp]; [|apply H4; exact Hp].
        rewrite map_app; apply in_or_app; left; apply mem_str_In; exact E.
    + assert (Hs : Insert.dedup_step (u0, map platform_id u0) x
                   = (u0 ++ [x], map platform_id u0 ++ [platform_id x]))
        by (unfold Insert.dedup_step; rewrite E; reflexivity).
      rewrite Hs.
      assert (Hnd' : NoDup (map platform_id (u0 ++ [x]))).
      { rewrite map_app; simpl; apply NoDup_app; auto using NoDup_cons, NoDup_nil.
        intros y Hy [<- | []]; apply mem_str_In in Hy; congruence. }
      destruct (IH (u0 ++ [x]) Hnd') as [u1 (H1 & H2 & H3 & H4)].
      replace (map platform_id u0 ++ [platform_id x]) with (map platform_id (u0 ++ [x]))
        by (rewrite map_app; reflexivity).
      rewrite H1.
      assert (Ha : (u0 ++ [x]) ++ u1 = u0 ++ x :: u1) by (rewrite <- app_assoc; reflexivity).
      rewrite Ha in H1, H2, H4 |- *.
      exists (x :: u1); split; [reflexivity|]; split; [exact H2|]; split.
      * intros q Hq; destruct Hq as [<- | Hq]; [left; reflexivity | right; apply H3; exact Hq].
      * intros p Hp; destruct Hp as [<- | Hp]; [|apply H4; exact Hp].
        rewrite map_app; apply in_or_app; right; left; reflexivity.
Qed.

Lemma nodup_Z_spec l : Submit.nodup_Z l = true <-> NoDup l.
Proof.
  induction l as [|x l IH]; simpl; split; intros H.
  - constructor.
  - reflexivity.
  - apply andb_true_iff in H; destruct H as [H1 H2]; constructor.
    + intros Hin; apply negb_true_iff in H1.
      assert (existsb (Z.eqb x) l = true)
        by (apply existsb_exists; exists x; split; [exact Hin | apply Z.eqb_refl]).
      congruence.
    + apply IH; exact H2.
  - inversion H as [|? ? Hn Hd]; subst; apply andb_true_iff; split.
    + apply negb_true_iff; destruct (existsb (Z.eqb x) l) eqn:E; [|reflexivity].
      apply existsb_exists in E; destruct E as [y [Hy Hxy]].
      apply Z.eqb_eq in Hxy; subst; contradiction.
    + apply IH; exact Hd.
Qed.

Lemma forallb_not_mem_str (xs ys : list string) :
  forallb (fun i => negb (mem_str i ys)) xs = true <-> (forall x, In x xs -> ~ In x ys).
Proof.
  rewrite forallb_forall; split; intros H x Hx.
  - intros Hy; specialize (H x Hx); apply mem_str_In in Hy; rewrite Hy in H; discriminate.
  - apply negb_true_iff; destruct (mem_str x ys) eqn:E; [|reflexivity].
    apply mem_str_In in E; exfalso; exact (H x Hx E).
Qed.

Lemma forallb_not_mem_Z (xs ys : list Z) :
  forallb (fun k => negb (existsb (Z.eqb k) ys)) xs = true <-> (forall x, In x xs -> ~ In x ys).
Proof.
  rewrite forallb_forall; split; intros H x Hx.
  - intros Hy; specialize (H x Hx).
    assert (existsb (Z.eqb x) ys = true)
      by (apply existsb_exists; exists x; split; [exact Hy | apply Z.eqb_refl]).
    rewrite H0 in H; discriminate.
  - apply negb_true_iff; destruct (existsb (Z.eqb x) ys) eqn:E; [|reflexivity].
    apply existsb_exists in E; destruct E as [y [Hy Hxy]].
    apply Z.eqb_eq in Hxy; subst; exfalso; exact (H y Hx Hy).
Qed.

Lemma fk_ok_spec st p :
  Submit.fk_ok st p = true
  <-> (forall i, collection_task_id p = Some i -> exists t, In t (tasks st) /\ task_id t = i).
Proof.
  unfold Submit.fk_ok; destruct (collection_task_id p) as [j|]; split.
  - intros H i Hi; injection Hi as <-; apply existsb_exists in H.
    destruct H as [t [Ht Hj]]; exists t; split; [exact Ht | apply Z.eqb_eq; exact Hj].
  - intros H; destruct (H j eq_refl) as [t [Ht Hj]]; apply existsb_exists.
    exists t; split; [exact Ht | apply Z.eqb_eq; exact Hj].
  - intros _ i Hi; discriminate.
  - intros _; reflexivity.
Qed.

Lemma insertable_spec st ps : Submit.insertable st ps = true <-> submittable st ps.
Proof.
  unfold Submit.insertable, submittable.
  rewrite !andb_true_iff, nodup_str_spec, nodup_Z_spec, forallb_not_mem_str,
    forallb_not_mem_Z, forallb_forall.
  split.
  - intros ((((H1 & H2) & H3) & H4) & H5).
    split; [exact H1|]; split; [intros p Hp; apply H2, in_map; exact Hp|].
    split; [exact H3|]; split; [intros p Hp; apply H4, in_map; exact Hp|].
    intros p i Hp Hi; exact (proj1 (fk_ok_spec st p) (H5 p Hp) i Hi).
  - intros (H1 & H2 & H3 & H4 & H5); repeat split.
    + exact H1.
    + intros x Hx; apply in_map_iff in Hx; destruct Hx as [p [<- Hp]]; apply H2; exact Hp.
    + exact H3.
    + intros x Hx; apply in_map_iff in Hx; destruct Hx as [p [<- Hp]]; apply H4; exact Hp.
    + intros p Hp; apply fk_ok_spec; intros i Hi; exact (H5 p i Hp Hi).
Qed.

Lemma insertable_nil st : Submit.insertable st [] = true.
Proof. reflexivity. Qed.

Lemma insert_dedup_spec (st : Store) (ps : list Post) :
  exists r,
    Insert.insert_posts_with_deduplication st ps
      = (if Submit.insertable st r then Some (r, mkStore (tasks st) (posts st ++ r)) else None)
    /\ NoDup (map platform_id r)
    /\ (forall q, In q r -> In q ps /\ ~ In (platform_id q) (stored_ids st))
    /\ (forall p, In p ps -> In (platform_id p) (stored_ids st) \/ In (platform_id p) (map platform_id r)).
Proof.
  destruct (dedup_fold ps [] (NoDup_nil _)) as [u (H1 & H2 & H3 & H4)].
  simpl in H1, H2, H4.
  unfold Insert.insert_posts_with_deduplication; rewrite H1.
  set (f := List.filter (fun p => negb (mem_str (platform_id p) _)) u).
  assert (Hf : f = List.filter (fun p => negb (mem_str (platform_id p) (stored_ids st))) u).
  { apply filter_ext_in; intros p Hp.
    assert (Hi : In (platform_id p) (map platform_id u)) by (apply in_map; exact Hp).
    destruct (mem_str (platform_id p) (stored_ids st)) eqn:E.
    - rewrite (proj2 (mem_str_In _ _)); [reflexivity|].
      apply filter_In; split; [apply mem_str_In; exact E | apply mem_str_In; exact Hi].
    - destruct (mem_str (platform_id p) (List.filter _ _)) eqn:E2; [|reflexivity].
      apply mem_str_In, filter_In in E2; destruct E2 as [E2 _].
      apply mem_str_In in E2; congruence. }
  assert (Hnd : NoDup (map platform_id f)) by (rewrite Hf; apply NoDup_map_filter; exact H2).
  assert (Hfr : forall q, In q f -> In q ps /\ ~ In (platform_id q) (stored_ids st)).
  { intros q Hq; rewrite Hf in Hq; apply filter_In in Hq; destruct Hq as [Hq Hn].
    split; [apply H3; exact Hq|].
    intros Hin; apply mem_str_In in Hin; rewrite Hin in Hn; discriminate. }
  exists f; split; [unfold Submit.submit_posts; destruct (Submit.insertable st f); reflexivity|].
  split; [exact Hnd|]; split; [exact Hfr|].
  intros p Hp; destruct (mem_str (platform_id p) (stored_ids st)) eqn:E.
  - left; apply mem_str_In; exact E.
  - right; pose proof (H4 p Hp) as H5; apply in_map_iff in H5.
    destruct H5 as [y [Hy Hyu]].
    rewrite <- Hy; apply in_map; rewrite Hf; apply filter_In; split; [exact Hyu|].
    rewrite Hy, E; reflexivity.
Qed.

(** [insert_posts_with_deduplication] picks the posts [r] to insert:
    pairwise distinct ids, each an input post whose id is not stored, and
    every input post is either already stored or represented (by id) in
    [r].  When [r] passes the database constraints ([submittable]: unique
    ids and keys, foreign keys) the store grows by exactly [r] (and the
    stored ids stay unique); otherwise the commit raises and it returns
    [None]. *)
Theorem insert_dedup_appends_fresh (st : Store) (ps : list Post) :
  exists r,
    NoDup (map platform_id r)
    /\ (forall q, In q r -> In q ps /\ ~ In (platform_id q) (stored_ids st))
    /\ (forall p, In p ps -> In (platform_id p) (stored_ids st) \/ In (platform_id p) (map platform_id r))
    /\ (submittable st r ->
        Insert.insert_posts_with_deduplication st ps = Some (r, mkStore (tasks st) (posts st ++ r))
        /\ (NoDup (stored_ids st) -> NoDup (stored_ids (mkStore (tasks st) (posts st ++ r)))))
    /\ (~ submittable st r -> Insert.insert_posts_with_deduplication st ps = None).
Proof.
  destruct (insert_dedup_spec st ps) as [r (E & Hnd & Hfr & Hc)].
  exists r; split; [exact Hnd|]; split; [exact Hfr|]; split; [exact Hc|]; split.
  - intros Hs; apply insertable_spec in Hs; rewrite E, Hs; split; [reflexivity|].
    intros Hu; unfold stored_ids; simpl; rewrite map_app; apply NoDup_app; auto.
    intros x Hx Hy; apply in_map_iff in Hy; destruct Hy as [q [<- Hq]].
    apply (proj2 (Hfr q Hq)); exact Hx.
  - intros Hs; rewrite E; destruct (Submit.insertable st r) eqn:Ei; [|reflexivity].
    exfalso; apply Hs, insertable_spec; exact Ei.
Qed.

(** Calling [insert_posts_with_deduplication] again with the same batch
    inserts nothing and leaves the store unchanged. *)
Theorem insert_dedup_idempotent (st : Store) (ps r : list Post) (st' : Store)
    (H : Insert.insert_posts_with_deduplication st ps = Some (r, st')) :
  Insert.insert_posts_with_deduplication st' ps = Some ([], st').
Proof.
  destruct (insert_dedup_spec st ps) as [r1 (E1 & _ & _ & Hc1)].
  rewrite E1 in H; destruct (Submit.insertable st r1); [|discriminate].
  injection H as <- <-.
  set (st1 := mkStore (tasks st) (posts st ++ r1)).
  destruct (insert_dedup_spec st1 ps) as [r2 (E2 & _ & Hf2 & _)].
  destruct r2 as [|q r2].
  - rewrite E2, insertable_nil; unfold st1; simpl; rewrite app_nil_r; reflexivity.
  - exfalso; destruct (Hf2 q (or_introl eq_refl)) as [Hq Hn]; apply Hn.
    unfold st1, stored_ids; simpl; rewrite map_app; apply in_or_app.
    destruct (Hc1 q Hq); [left | right]; assumption.
Qed.

Lemma insert_dedup_idempotent_witness :
  Insert.insert_posts_with_deduplication sample_target
    [sample_post 20 "p1" 1; sample_post 21 "p9" 1]
  = Some ([sample_post 21 "p9" 1],
          mkStore (tasks sample_target) (posts sample_target ++ [sample_post 21 "p9" 1]))
  /\ Insert.insert_posts_with_deduplication
       (mkStore (tasks sample_target) (posts sample_target ++ [sample_post 21 "p9" 1]))
       [sample_post 20 "p1" 1; sample_post 21 "p9" 1]
     = Some ([], mkStore (tasks sample_target) (posts sample_target ++ [sample_post 21 "p9" 1])).
Proof.
  assert (H : Insert.insert_posts_with_deduplication sample_target
                [sample_post 20 "p1" 1; sample_post 21 "p9" 1]
              = Some ([sample_post 21 "p9" 1],
                      mkStore (tasks sample_target) (posts sample_target ++ [sample_post 21 "p9" 1])))
    by (vm_compute; reflexivity).
  split; [exact H | exact (insert_dedup_idempotent _ _ _ _ H)].
Defined.

(** [safe_submit_posts] is all or nothing: either the batch passes the
    database constraints ([submittable]: pairwise distinct ids and keys,
    none stored, every foreign key to a stored task), is stored and
    returned, or nothing is stored and the returned list is the batch
    filtered by the stored ids. *)
Theorem safe_submit_all_or_nothing (st : Store) (ps : list Post) :
  let '(r, st') := Submit.safe_submit_posts st ps in
  (submittable st ps /\ r = ps /\ st' = mkStore (tasks st) (posts st ++ ps))
  \/ (~ submittable st ps /\ r = filter_posts_with_existing_post_ids ps st /\ st' = st).
Proof.
  unfold Submit.safe_submit_posts, Submit.submit_posts.
  destruct (Submit.insertable st ps) eqn:E.
  - left; split; [apply insertable_spec; exact E | split; reflexivity].
  - right; split; [|split; reflexivity].
    intros Hs; apply insertable_spec in Hs; congruence.
Qed.

Lemma count_status_total ts :
  list_sum (map (fun s => Counts.count_status s ts) Counts.stored_order) = List.length ts.
Proof.
  unfold Counts.count_status, Counts.stored_order.
  induction ts as [|t ts IH]; [reflexivity|].
  simpl in *; destruct (status t); simpl; lia.
Qed.

Lemma list_sum_filter_pos {A} (f : A -> nat) l :
  list_sum (map f (List.filter (fun x => 0 <? f x) l)) = list_sum (map f l).
Proof.
  induction l as [|x l IH]; simpl; [reflexivity|].
  destruct (0 <? f x) eqn:E; simpl; rewrite IH; [reflexivity|].
  apply Nat.ltb_ge in E; lia.
Qed.

(** The counts returned by [count_states] add up to the number of tasks. *)
Theorem count_states_sum (st : Store) :
  list_sum (map snd (Counts.count_states st)) = List.length (tasks st).
Proof.
  unfold Counts.count_states; rewrite map_map.
  rewrite (map_ext _ (fun s => Counts.count_status s (tasks st))) by reflexivity.
  rewrite (list_sum_filter_pos (fun s => Counts.count_status s (tasks st))).
  apply count_status_total.
Qed.

(** [count_states] has a key (the lower-case status name) exactly for the
    statuses some task has, mapped to the number of such tasks. *)
Theorem count_states_lookup (st : Store) (s : CollectionStatus) :
  Counts.dict_lookup (Counts.lower (Counts.status_name s)) (Counts.count_states st)
  = if 0 <? Counts.count_status s (tasks st)
    then Some (Counts.count_status s (tasks st)) else None.
Proof.
  unfold Counts.count_states, Counts.stored_order.
  destruct (0 <? Counts.count_status ABORTED (tasks st)) eqn:E1;
  destruct (0 <? Counts.count_status DONE (tasks st)) eqn:E2;
  destruct (0 <? Counts.count_status INIT (tasks st)) eqn:E3;
  destruct (0 <? Counts.count_status INVALID_CONF (tasks st)) eqn:E4;
  destruct (0 <? Counts.count_status PAUSED (tasks st)) eqn:E5;
  destruct (0 <? Counts.count_status RUNNING (tasks st)) eqn:E6;
  destruct s; cbn [List.filter]; rewrite ?E1, ?E2, ?E3, ?E4, ?E5, ?E6;
  vm_compute; reflexivity.
Qed.

Lemma fold_count {A} (l : list A) n : fold_left (fun c _ => S c) l n = n + List.length l.
Proof. revert n; induction l as [|x l IH]; simpl; intros n; [lia | rewrite IH; lia]. Qed.

(** [reset_collection_task_states] returns the number of tasks in the
    given states, sets exactly those tasks to INIT (each selected task
    becomes the same task with status INIT), keeps ids, names, the other
    tasks and all posts; unless INIT is among the states, a second
    call resets nothing. *)
Theorem reset_states_spec (st : Store) (states : list CollectionStatus) :
  let '(c, st') := TaskOps.reset_collection_task_states st states in
  c = List.length (List.filter (TaskOps.in_states states) (tasks st))
  /\ posts st' = posts st
  /\ map task_id (tasks st') = map task_id (tasks st)
  /\ map task_name (tasks st') = map task_name (tasks st)
  /\ (forall t, In t (tasks st') -> TaskOps.in_states states t = true -> status t = INIT)
  /\ (forall t, In t (tasks st) -> TaskOps.in_states states t = true ->
                In (TaskOps.set_status t INIT) (tasks st'))
  /\ (forall t, In t (tasks st) -> TaskOps.in_states states t = false -> In t (tasks st'))
  /\ (~ In INIT states ->
      fst (TaskOps.reset_collection_task_states st' states) = 0).
Proof.
  unfold TaskOps.reset_collection_task_states; cbn [tasks posts fst].
  rewrite fold_count; simpl.
  split; [reflexivity|]; split; [reflexivity|].
  split; [rewrite map_map; apply map_ext; intros t; destruct (TaskOps.in_states _ _); reflexivity|].
  split; [rewrite map_map; apply map_ext; intros t; destruct (TaskOps.in_states _ _); reflexivity|].
  assert (Hinit : forall t, In t (map (fun t => if TaskOps.in_states states t
                                             then TaskOps.set_status t INIT else t) (tasks st)) ->
                       TaskOps.in_states states t = true -> status t = INIT).
  { intros t Ht Hs; apply in_map_iff in Ht; destruct Ht as [t0 [<- Ht0]].
    destruct (TaskOps.in_states states t0) eqn:E; [reflexivity|congruence]. }
  split; [exact Hinit|]; split.
  { intros t Ht Hs; apply in_map_iff; exists t; rewrite Hs; split; [reflexivity|exact Ht]. }
  split.
  - intros t Ht Hs; apply in_map_iff; exists t; rewrite Hs; split; [reflexivity|exact Ht].
  - intros Hn; rewrite fold_count; simpl.
    apply length_zero_iff_nil, filter_all_false; intros t Ht.
    destruct (TaskOps.in_states states t) eqn:E; [|reflexivity].
    pose proof (Hinit t Ht E) as Hs; unfold TaskOps.in_states in E.
    rewrite Hs in E; apply existsb_exists in E; destruct E as [x [Hx Hq]].
    apply status_eqb_spec in Hq; subst x; contradiction.
Qed.

Lemma fk_in_spec ids p :
  TaskOps.fk_in ids p = true <-> exists i, collection_task_id p = Some i /\ In i ids.
Proof.
  unfold TaskOps.fk_in, TaskOps.mem_Z; destruct (collection_task_id p) as [i|]; split.
  - intros H; apply existsb_exists in H; destruct H as [j [Hj Heq]].
    apply Z.eqb_eq in Heq; subst; exists j; split; [reflexivity|exact Hj].
  - intros [j [Hj Hin]]; injection Hj as <-; apply existsb_exists; exists i.
    split; [exact Hin | apply Z.eqb_refl].
  - discriminate.
  - intros [j [Hj _]]; discriminate.
Qed.

Lemma delete_ps_eq st info :
  posts (TaskOps.delete_tasks st info)
  = List.filter (fun p => negb (TaskOps.fk_in
        (map task_id (List.filter (fun t => mem_str (task_name t) (map fst info)) (tasks st))) p))
      (map (fun p => if TaskOps.fk_in
                          (map task_id (List.filter (fun t => mem_str (task_name t)
                                            (map fst (List.filter snd info))) (tasks st))) p
                     then TaskOps.detach p else p) (posts st)).
Proof.
  unfold TaskOps.delete_tasks; cbn [posts].
  destruct (map fst (List.filter snd info)) eqn:E; [|reflexivity].
  f_equal; symmetry; rewrite <- (map_id (posts st)) at 2; apply map_ext; intros p.
  replace (List.filter _ (tasks st)) with (@nil CollectionTask);
    [unfold TaskOps.fk_in; destruct (collection_task_id p); reflexivity|].
  symmetry; apply filter_all_false; reflexivity.
Qed.

Lemma delete_tasks_eq st info :
  tasks (TaskOps.delete_tasks st info)
  = List.filter (fun t => negb (mem_str (task_name t) (map fst info))) (tasks st).
Proof. reflexivity. Qed.

Lemma detach_fk p : collection_task_id (TaskOps.detach p) = None.
Proof. reflexivity. Qed.

(** [delete_tasks] removes exactly the named tasks and preserves
    referential integrity: every post's task id still names a task. *)
Theorem delete_tasks_integrity (st : Store) (info : list (string * bool)) :
  let st' := TaskOps.delete_tasks st info in
  (forall t, In t (tasks st') <-> In t (tasks st) /\ ~ In (task_name t) (map fst info))
  /\ (fk_integrity st -> fk_integrity st').
Proof.
  intros st'; split.
  - intros t; unfold st'; rewrite delete_tasks_eq, filter_In.
    split; intros [H1 H2]; split; auto.
    + intros Hin; apply mem_str_In in Hin; rewrite Hin in H2; discriminate.
    + destruct (mem_str _ _) eqn:E; [apply mem_str_In in E; contradiction|reflexivity].
  - intros Hint p i Hp Hi; unfold st' in *; rewrite delete_ps_eq in Hp.
    apply filter_In in Hp; destruct Hp as [Hp Hdel]; apply in_map_iff in Hp.
    destruct Hp as [p0 [Hp0 Hin0]].
    destruct (TaskOps.fk_in _ p0) eqn:Ek; [subst p; discriminate|subst p0].
    destruct (Hint p i Hin0 Hi) as [t [Ht Hti]].
    exists t; split; [|exact Hti].
    rewrite delete_tasks_eq; apply filter_In; split; [exact Ht|].
    destruct (mem_str (task_name t) (map fst info)) eqn:E; [|reflexivity].
    exfalso; apply negb_true_iff in Hdel; apply Bool.not_true_iff_false in Hdel; apply Hdel.
    apply fk_in_spec; exists i; split; [exact Hi|].
    rewrite <- Hti; apply in_map; apply filter_In; split; assumption.
Qed.

Lemma NoDup_map_inj {A B} (f : A -> B) l a b :
  NoDup (map f l) -> In a l -> In b l -> f a = f b -> a = b.
Proof.
  induction l as [|x l IH]; simpl; intros Hnd Ha Hb Hf; [contradiction|].
  inversion Hnd as [|? ? Hn Hd]; subst.
  destruct Ha as [<- | Ha], Hb as [<- | Hb]; auto.
  - exfalso; apply Hn; rewrite Hf; apply in_map; exact Hb.
  - exfalso; apply Hn; rewrite <- Hf; apply in_map; exact Ha.
Qed.

Lemma in_task_ids (P : string -> bool) ts t i :
  In t ts -> task_id t = i -> P (task_name t) = true ->
  In i (map task_id (List.filter (fun t => P (task_name t)) ts)).
Proof.
  intros Ht Hi HP; rewrite <- Hi; apply in_map; apply filter_In; split; assumption.
Qed.

(** The fate of the posts under [delete_tasks] (stored ids unique): posts
    of tasks not deleted survive unchanged, posts of a deleted task marked
    keep survive detached, and posts of a deleted task not marked keep are
    removed, leaving no post with their platform id. *)
Theorem delete_tasks_posts_fate (st : Store) (info : list (string * bool))
    (Hu : NoDup (stored_ids st)) :
  let st' := TaskOps.delete_tasks st info in
  let keep := map fst (List.filter snd info) in
  (forall p, In p (posts st) ->
     (forall t, In t (tasks st) -> collection_task_id p = Some (task_id t) ->
                ~ In (task_name t) (map fst info)) ->
     In p (posts st'))
  /\ (forall p t, In p (posts st) -> In t (tasks st) ->
        collection_task_id p = Some (task_id t) -> In (task_name t) keep ->
        In (TaskOps.detach p) (posts st'))
  /\ (forall p t, In p (posts st) -> In t (tasks st) ->
        collection_task_id p = Some (task_id t) -> In (task_name t) (map fst info) ->
        (forall t', In t' (tasks st) -> task_id t' = task_id t -> ~ In (task_name t') keep) ->
        forall q, In q (posts st') -> platform_id q <> platform_id p).
Proof.
  intros st' keep.
  assert (Hkeep : forall n, In n keep -> In n (map fst info)).
  { intros n Hn; unfold keep in Hn; apply in_map_iff in Hn; destruct Hn as [[a b] [<- Hab]].
    apply filter_In in Hab; apply in_map with (f := fst); tauto. }
  unfold keep in *; split; [|split].
  - intros p Hp Hnot; unfold st'; rewrite delete_ps_eq; apply filter_In.
    assert (Hd : forall ns, (forall n, In n ns -> In n (map fst info)) ->
                 TaskOps.fk_in (map task_id (List.filter (fun t => mem_str (task_name t) ns)
                                               (tasks st))) p = false).
    { intros ns Hns; apply Bool.not_true_iff_false; intros Hk; apply fk_in_spec in Hk.
      destruct Hk as [i [Hi Hin]]; apply in_map_iff in Hin; destruct Hin as [t [Hti Ht]].
      apply filter_In in Ht; destruct Ht as [Ht Hm]; apply mem_str_In in Hm.
      apply (Hnot t Ht); [rewrite Hi, Hti; reflexivity | apply Hns; exact Hm]. }
    rewrite (Hd _ (fun n H => H)); split; [|reflexivity].
    apply in_map_iff; exists p; rewrite (Hd _ Hkeep); split; [reflexivity|exact Hp].
  - intros p t Hp Ht Hfk Hk; unfold st'; rewrite delete_ps_eq; apply filter_In.
    split; [|reflexivity].
    apply in_map_iff; exists p; split; [|exact Hp].
    replace (TaskOps.fk_in _ p) with true; [reflexivity|].
    symmetry; apply fk_in_spec; exists (task_id t); split; [exact Hfk|].
    apply (in_task_ids (fun n => mem_str n (map fst (List.filter snd info)))) with (t := t);
      [exact Ht|reflexivity|apply mem_str_In; exact Hk].
  - intros p t Hp Ht Hfk Hn Hnk q Hq Heq; unfold st' in Hq; rewrite delete_ps_eq in Hq.
    apply filter_In in Hq; destruct Hq as [Hq Hdel]; apply in_map_iff in Hq.
    destruct Hq as [p0 [Hq Hp0]].
    assert (Hid : platform_id p0 = platform_id p)
      by (rewrite <- Heq, <- Hq; destruct (TaskOps.fk_in _ p0); reflexivity).
    assert (E0 : p0 = p) by (apply (NoDup_map_inj platform_id (posts st)); assumption).
    subst p0.
    destruct (TaskOps.fk_in _ p) eqn:Ek.
    + apply fk_in_spec in Ek; destruct Ek as [i [Hi Hin]]; apply in_map_iff in Hin.
      destruct Hin as [t' [Hti Ht']]; apply filter_In in Ht'; destruct Ht' as [Ht' Hm].
      apply mem_str_In in Hm; apply (Hnk t' Ht'); [|exact Hm].
      rewrite Hti; congruence.
    + subst q; rewrite (proj2 (fk_in_spec _ _)) in Hdel; [discriminate|].
      exists (task_id t); split; [exact Hfk|].
      apply (in_task_ids (fun n => mem_str n (map fst info))) with (t := t);
        [exact Ht|reflexivity|apply mem_str_In; exact Hn].
Qed.

Lemma delete_tasks_posts_fate_witness :
  NoDup (stored_ids del_store)
  /\ In (TaskOps.detach (sample_post 1 "p1" 1))
        (posts (TaskOps.delete_tasks del_store [("a"%string, true); ("b"%string, false)])).
Proof.
  assert (Hu : NoDup (stored_ids del_store)) by (apply nodup_str_spec; vm_compute; reflexivity).
  split; [exact Hu|].
  destruct (delete_tasks_posts_fate del_store [("a"%string, true); ("b"%string, false)] Hu)
    as [_ [H2 _]].
  apply (H2 _ (mkTask 1 "a" "tiktok" "{}" DONE None None)); vm_compute; auto.
Defined.

Lemma get_task_some st i t :
  TaskOps.get_task st i = Some t -> In t (tasks st) /\ task_id t = i.
Proof.
  unfold TaskOps.get_task; intros H; apply find_some in H; destruct H as [H1 H2].
  apply Z.eqb_eq in H2; split; assumption.
Qed.

Lemma get_task_replace t' ts :
  find (fun t => Z.eqb (task_id t) (task_id t')) ts <> None ->
  find (fun t => Z.eqb (task_id t) (task_id t')) (replace_task t' ts) = Some t'.
Proof.
  unfold replace_task; induction ts as [|t ts IH]; simpl; intros H; [congruence|].
  destruct (Z.eqb (task_id t) (task_id t')) eqn:E; simpl.
  - rewrite Z.eqb_refl; reflexivity.
  - rewrite E; apply IH; exact H.
Qed.

Lemma replace_task_ids t' ts : map task_id (replace_task t' ts) = map task_id ts.
Proof.
  unfold replace_task; rewrite map_map; apply map_ext; intros t.
  destruct (Z.eqb (task_id t) (task_id t')) eqn:E; [apply Z.eqb_eq in E; congruence | reflexivity].
Qed.

(** [update_task_results] raises exactly when the task id is unknown;
    otherwise
    referential integrity is preserved; a transient result deletes the task
    and exactly its posts, a non-transient one marks the task DONE with
    both counters and leaves the posts alone. *)
Theorem update_task_results_spec (st : Store) (r : TaskOps.CollectionResult) :
  (TaskOps.get_task st (TaskOps.res_task_id r) = None -> TaskOps.update_task_results st r = None)
  /\ match TaskOps.update_task_results st r with
  | None => TaskOps.get_task st (TaskOps.res_task_id r) = None
  | Some st' =>
      (fk_integrity st -> fk_integrity st')
      /\ (TaskOps.res_transient r = true ->
          TaskOps.get_task st' (TaskOps.res_task_id r) = None
          /\ (forall p, In p (posts st') ->
                In p (posts st) /\ collection_task_id p <> Some (TaskOps.res_task_id r))
          /\ (forall p, In p (posts st) ->
                collection_task_id p <> Some (TaskOps.res_task_id r) -> In p (posts st')))
      /\ (TaskOps.res_transient r = false ->
          posts st' = posts st
          /\ exists t', TaskOps.get_task st' (TaskOps.res_task_id r) = Some t'
             /\ status t' = DONE
             /\ found_items t' = Some (TaskOps.res_collected_items r)
             /\ added_items t' = Some (Z.of_nat (List.length (TaskOps.res_added_posts r))))
  end.
Proof.
  unfold TaskOps.update_task_results.
  split; [intros Hn; rewrite Hn; reflexivity|].
  destruct (TaskOps.get_task st (TaskOps.res_task_id r)) as [tr|] eqn:Eg; [|reflexivity].
  destruct (get_task_some _ _ _ Eg) as [Htr Hid].
  destruct (TaskOps.res_transient r) eqn:Etr.
  - split; [|split; [|discriminate]].
    + intros Hint p i Hp Hi; simpl in Hp; apply filter_In in Hp; destruct Hp as [Hp Hk].
      destruct (Hint p i Hp Hi) as [t [Ht Hti]]; exists t; split; [|exact Hti].
      simpl; apply filter_In; split; [exact Ht|].
      destruct (Z.eqb (task_id t) (task_id tr)) eqn:E; [|reflexivity].
      apply Z.eqb_eq in E; rewrite (proj2 (fk_in_spec _ _)) in Hk; [discriminate|].
      exists i; split; [exact Hi | left; congruence].
    + intros _; split; [|split].
      * unfold TaskOps.get_task; simpl.
        destruct (find _ _) as [t|] eqn:Ef; [|reflexivity].
        apply find_some in Ef; destruct Ef as [Ef1 Ef2]; apply filter_In in Ef1.
        destruct Ef1 as [_ Ef1]; apply Z.eqb_eq in Ef2; rewrite Ef2, <- Hid, Z.eqb_refl in Ef1.
        discriminate.
      * intros p Hp; simpl in Hp; apply filter_In in Hp; destruct Hp as [Hp Hk].
        split; [exact Hp|]; intros Hfk; rewrite (proj2 (fk_in_spec _ _)) in Hk; [discriminate|].
        exists (TaskOps.res_task_id r); split; [exact Hfk | left; congruence].
      * intros p Hp Hfk; simpl; apply filter_In; split; [exact Hp|].
        destruct (TaskOps.fk_in _ p) eqn:Ek; [|reflexivity].
        apply fk_in_spec in Ek; destruct Ek as [i [Hi [Hi' | []]]].
        exfalso; apply Hfk; rewrite Hi, <- Hi', Hid; reflexivity.
  - split; [|split; [discriminate|]].
    + intros Hint p i Hp Hi; simpl in Hp; destruct (Hint p i Hp Hi) as [t [Ht Hti]].
      assert (Hm : In i (map task_id (replace_task
                     (mkTask (task_id tr) (task_name tr) (task_platform tr) (collection_config tr)
                        DONE (Some (TaskOps.res_collected_items r))
                        (Some (Z.of_nat (List.length (TaskOps.res_added_posts r))))) (tasks st))))
        by (rewrite replace_task_ids, <- Hti; apply in_map; exact Ht).
      apply in_map_iff in Hm; destruct Hm as [t' [Ht' Hin']]; exists t'; split; assumption.
    + intros _; split; [reflexivity|].
      eexists; split.
      * unfold TaskOps.get_task; simpl; rewrite <- Hid.
        apply (get_task_replace (mkTask (task_id tr) _ _ _ _ _ _)); simpl.
        unfold TaskOps.get_task in Eg; rewrite Hid, Eg; discriminate.
      * repeat split.
Qed.

(** [merge_database] raises exactly when some task of the source has a post
    whose [platform_id] the target does not hold. *)
Theorem merge_database_raises_iff_new_post (path : string) (source target : Store) :
  merge_database path source target = None
  <-> exists tp, In tp (get_tasks_with_posts source)
                 /\ filter_posts_with_existing_post_ids (snd tp) target <> [].
Proof.
  pose proof (merge_database_outcome path source target) as H.
  destruct (merge_database path source target) as [[[t st] log]|].
  - split; [discriminate|]; intros [tp [Hin Hne]].
    destruct H as (Hall & _); exfalso; exact (Hne (Hall tp Hin)).
  - split; [intros _; exact H | reflexivity].
Qed.

(** When [merge_database] returns, the target keeps its posts, the session
    made one commit, of no post, and the returned stats count no added post:
    every post found is counted as a duplicate. *)
Theorem merge_database_returns_unchanged_posts (path : string) (source target : Store) :
  match merge_database path source target with
  | Some (t, stats, log) =>
      posts t = posts target /\ log = [0] /\ new_posts_added stats = 0
      /\ duplicated_posts_skipped stats = total_posts_found stats
  | None => True
  end.
Proof.
  pose proof (merge_database_outcome path source target) as H.
  destruct (merge_database path source target) as [[[t st] log]|]; [|exact I].
  destruct H as (_ & H); exact H.
Qed.

Lemma digit_char d : d < 10 ->
  Reconcile.is_digit (ascii_of_nat (48 + d)) = true
  /\ nat_of_ascii (ascii_of_nat (48 + d)) - 48 = d.
Proof.
  intros Hd; unfold Reconcile.is_digit; rewrite nat_ascii_embedding by lia.
  split; [apply andb_true_iff; split; apply Nat.leb_le; lia | lia].
Qed.

Lemma digits_of_nat_spec fuel n acc :
  n < fuel ->
  exists L, list_ascii_of_string (Reconcile.digits_of_nat fuel n acc)
            = L ++ list_ascii_of_string acc
    /\ L <> [] /\ Forall (fun c => Reconcile.is_digit c = true) L
    /\ forall r a, Reconcile.digits_acc (L ++ r) a false
                   = Reconcile.digits_acc r (a * 10 ^ Z.of_nat (List.length L) + Z.of_nat n)%Z false.
Proof.
  revert n acc; induction fuel as [|f IH]; intros n acc Hn; [lia|].
  assert (Hs : Reconcile.digits_of_nat (S f) n acc
    = if n <? 10 then String (ascii_of_nat (48 + n mod 10)) acc
      else Reconcile.digits_of_nat f (n / 10) (String (ascii_of_nat (48 + n mod 10)) acc))
    by reflexivity.
  rewrite Hs; clear Hs.
  destruct (digit_char (n mod 10) (Nat.mod_upper_bound n 10 ltac:(lia))) as [Hdig Hval].
  remember (ascii_of_nat (48 + n mod 10)) as c eqn:Ec; clear Ec.
  destruct (n <? 10) eqn:E.
  - apply Nat.ltb_lt in E.
    exists [c]; simpl; split; [reflexivity|].
    split; [discriminate|]; split; [constructor; [exact Hdig | constructor]|].
    intros r a; rewrite Hdig, Hval, Nat.mod_small by exact E.
    f_equal; lia.
  - apply Nat.ltb_ge in E.
    destruct (IH (n / 10) (String c acc)) as [L (H1 & H2 & H3 & H4)].
    { assert (n / 10 < n) by (apply Nat.div_lt; lia). lia. }
    exists (L ++ [c]); rewrite H1, <- app_assoc; cbn [app list_ascii_of_string].
    split; [reflexivity|]; split; [destruct L; [contradiction | discriminate]|].
    split; [apply Forall_app; split; [exact H3 | constructor; [exact Hdig | constructor]]|].
    intros r a; rewrite <- app_assoc, H4; cbn [app Reconcile.digits_acc]; rewrite Hdig, Hval.
    f_equal; rewrite length_app; cbn [List.length].
    rewrite Nat2Z.inj_add, Z.pow_add_r by lia; change (10 ^ Z.of_nat 1)%Z with 10%Z.
    pose proof (Nat.div_mod n 10 ltac:(lia)) as Hdm.
    assert (Z.of_nat n = 10 * Z.of_nat (n / 10) + Z.of_nat (n mod 10))%Z by lia.
    nia.
Qed.

Lemma drop_space_digits l :
  Forall (fun c => Reconcile.is_digit c = true) l -> l <> [] -> Reconcile.drop_space l = l.
Proof.
  destruct l as [|c l]; intros H Hne; [contradiction|].
  inversion H as [|? ? Hc _]; subst; cbn [Reconcile.drop_space].
  destruct (Reconcile.is_space c) eqn:E; [|reflexivity].
  exfalso; unfold Reconcile.is_space, Reconcile.is_digit in *.
  apply andb_true_iff in Hc; destruct Hc as [Hc1 Hc2]; apply Nat.leb_le in Hc1, Hc2.
  apply orb_true_iff in E; destruct E as [E | E];
    [apply Nat.eqb_eq in E | apply andb_true_iff in E; destruct E as [_ E]; apply Nat.leb_le in E];
    lia.
Qed.

Lemma digit_not_sign c :
  Reconcile.is_digit c = true -> Ascii.eqb c "-"%char = false /\ Ascii.eqb c "+"%char = false.
Proof.
  intros H; split; destruct (Ascii.eqb c _) eqn:E; auto;
    apply Ascii.eqb_eq in E; subst; discriminate.
Qed.

Lemma python_int_digits L v :
  Forall (fun c => Reconcile.is_digit c = true) L -> L <> [] ->
  Reconcile.digits_acc L 0 false = Some v ->
  Reconcile.python_int (string_of_list_ascii L) = Some v.
Proof.
  intros Hd Hne Hv; unfold Reconcile.python_int, Reconcile.strip.
  rewrite list_ascii_of_string_of_list_ascii.
  rewrite (drop_space_digits L Hd Hne).
  rewrite (drop_space_digits (rev L)), rev_involutive.
  2: { apply Forall_rev; exact Hd. }
  2: { intros Hr; apply Hne; rewrite <- (rev_involutive L), Hr; reflexivity. }
  destruct L as [|c r]; [contradiction|].
  inversion Hd as [|? ? Hc _]; subst.
  destruct (digit_not_sign c Hc) as [E1 E2]; rewrite E1, E2.
  unfold Reconcile.parse_digits; rewrite Hc; exact Hv.
Qed.

Lemma string_of_nat_digits n :
  exists L, list_ascii_of_string (Reconcile.string_of_nat n) = L
    /\ L <> [] /\ Forall (fun c => Reconcile.is_digit c = true) L
    /\ Reconcile.digits_acc L 0 false = Some (Z.of_nat n).
Proof.
  destruct (digits_of_nat_spec (S n) n "" (Nat.lt_succ_diag_r n)) as [L (H1 & H2 & H3 & H4)].
  exists L; unfold Reconcile.string_of_nat; rewrite H1; cbn [list_ascii_of_string]; rewrite app_nil_r.
  split; [reflexivity|]; split; [exact H2|]; split; [exact H3|].
  rewrite <- (app_nil_r L) at 1; rewrite H4; cbn [Reconcile.digits_acc]; f_equal; lia.
Qed.

(** [int(f"{n}")] gives back [n]: the decimal rendering used for new
    group names is read back by [int]. *)
Theorem string_of_nat_roundtrip (n : nat) :
  Reconcile.python_int (Reconcile.string_of_nat n) = Some (Z.of_nat n).
Proof.
  destruct (string_of_nat_digits n) as [L (H1 & H2 & H3 & H4)].
  rewrite <- (string_of_list_ascii_of_string (Reconcile.string_of_nat n)), H1.
  apply python_int_digits; assumption.
Qed.

Lemma first_free_from_none i fuel used :
  Reconcile.first_free_from i fuel used = None ->
  forall j, i <= j < i + fuel -> In (Z.of_nat j) used.
Proof.
  revert i; induction fuel as [|fuel IH]; simpl; intros i H j Hj; [lia|].
  destruct (existsb (Z.eqb (Z.of_nat i)) used) eqn:E; [|discriminate].
  destruct (Nat.eq_dec j i) as [->|Hne].
  - apply existsb_exists in E; destruct E as [x [Hx Hx']].
    apply Z.eqb_eq in Hx'; subst; exact Hx.
  - apply (IH (S i) H); lia.
Qed.

Lemma NoDup_map_of_nat l : NoDup l -> NoDup (map Z.of_nat l).
Proof.
  induction 1 as [|x l Hx Hl IH]; simpl; constructor; [|exact IH].
  intros Hin; apply in_map_iff in Hin; destruct Hin as [y [Hy Hy']].
  apply Nat2Z.inj in Hy; subst; contradiction.
Qed.

(** The search [for next_idx in range(len(existing_indices) + 1)] always
    breaks: it finds the least index missing from the set, at most its
    size, so the loop never falls through. *)
Theorem first_free_total (used : list Z) :
  exists k, Reconcile.first_free used = Some k
    /\ k <= List.length used /\ ~ In (Z.of_nat k) used
    /\ (forall j, j < k -> In (Z.of_nat j) used).
Proof.
  destruct (Reconcile.first_free used) as [k|] eqn:E.
  - exists k; split; [reflexivity|].
    destruct (first_free_mex used k E) as [H1 H2]; split; [|split; assumption].
    destruct (Nat.le_gt_cases k (List.length used)) as [Hk|Hk]; [exact Hk|].
    exfalso.
    assert (Hi : incl (map Z.of_nat (seq 0 (S (List.length used)))) used).
    { intros z Hz; apply in_map_iff in Hz; destruct Hz as [j [<- Hj]].
      apply in_seq in Hj; apply H2; lia. }
    apply NoDup_incl_length in Hi.
    + rewrite length_map, length_seq in Hi; lia.
    + apply NoDup_map_of_nat, seq_NoDup.
  - exfalso; unfold Reconcile.first_free in E.
    assert (Hi : incl (map Z.of_nat (seq 0 (S (List.length used)))) used).
    { intros z Hz; apply in_map_iff in Hz; destruct Hz as [j [<- Hj]].
      apply in_seq in Hj; apply (first_free_from_none _ _ _ E); lia. }
    apply NoDup_incl_length in Hi.
    + rewrite length_map, length_seq in Hi; lia.
    + apply NoDup_map_of_nat, seq_NoDup.
Qed.

Lemma list_ascii_append (a b : string) :
  list_ascii_of_string (String.append a b) = list_ascii_of_string a ++ list_ascii_of_string b.
Proof. induction a as [|c a IH]; simpl; [reflexivity | rewrite IH; reflexivity]. Qed.

Lemma string_append_assoc (a b c : string) :
  String.append (String.append a b) c = String.append a (String.append b c).
Proof. induction a as [|x a IH]; simpl; [reflexivity | rewrite IH; reflexivity]. Qed.

Lemma like_match_prefix_pct (P s : list ascii) :
  Reconcile.like_match (P ++ ["%"%char]) (P ++ s) = true.
Proof.
  induction P as [|c P IH]; simpl.
  - apply existsb_exists; exists []; split; [|reflexivity].
    induction s as [|d s IHs]; simpl; [left; reflexivity | right; exact IHs].
  - destruct (Ascii.eqb c "%"%char).
    + apply orb_true_iff; right; apply existsb_exists; exists (P ++ s); split; [|exact IH].
      destruct (P ++ s); simpl; left; reflexivity.
    + rewrite IH, Ascii.eqb_refl, orb_true_r; reflexivity.
Qed.

Lemma like_prefix (p s : string) :
  Reconcile.like (String.append p s) (String.append p "%") = true.
Proof.
  unfold Reconcile.like; rewrite !list_ascii_append; apply like_match_prefix_pct.
Qed.

Lemma removeprefix_append (p s : string) :
  Reconcile.removeprefix (String.append p s) p = s.
Proof.
  unfold Reconcile.removeprefix.
  assert (Hp : String.prefix p (String.append p s) = true).
  { induction p as [|c p IH]; simpl; [destruct s; reflexivity|].
    destruct (ascii_dec c c) as [_|n]; [exact IH | contradiction]. }
  rewrite Hp.
  assert (Hl : forall a b, String.length (String.append a b) = String.length a + String.length b).
  { intros a b; induction a; simpl; [reflexivity | rewrite IHa; reflexivity]. }
  rewrite Hl; replace (String.length p + String.length s - String.length p) with (String.length s) by lia.
  clear Hp Hl; induction p as [|c p IH]; simpl.
  - induction s as [|d s IHs]; simpl; [reflexivity | rewrite IHs; reflexivity].
  - exact IH.
Qed.

Lemma map_opt_in {A B} (f : A -> option B) l ys x y :
  Reconcile.map_opt f l = Some ys -> In x l -> f x = Some y -> In y ys.
Proof.
  revert ys; induction l as [|a l IH]; simpl; intros ys H Hx Hf; [contradiction|].
  destruct (f a) as [b|] eqn:Ea; [|discriminate].
  destruct (Reconcile.map_opt f l) as [bs|] eqn:El; [|discriminate].
  injection H as <-; destruct Hx as [<-|Hx].
  - rewrite Ea in Hf; injection Hf as ->; left; reflexivity.
  - right; exact (IH bs eq_refl Hx Hf).
Qed.

Lemma set_of_in k l : In k (Reconcile.set_of l) <-> In k l.
Proof.
  unfold Reconcile.set_of.
  assert (G : forall acc, In k (fold_left (fun used k => Reconcile.set_add k used) l acc)
                          <-> In k acc \/ In k l).
  { induction l as [|a l IH]; simpl; intros acc; [tauto|].
    rewrite IH; unfold Reconcile.set_add.
    destruct (existsb (Z.eqb a) acc) eqn:E.
    - apply existsb_exists in E; destruct E as [x [Hx Hx']]; apply Z.eqb_eq in Hx'; subst.
      split; [tauto|]; intros [H|[H|H]]; [left; exact H | subst; left; exact Hx | right; exact H].
    - rewrite in_app_iff; simpl; tauto. }
  rewrite G; simpl; tauto.
Qed.

Lemma set_add_in k k' used : In k used -> In k (Reconcile.set_add k' used).
Proof.
  unfold Reconcile.set_add; destruct existsb; [auto | intros; apply in_or_app; left; assumption].
Qed.

(** An indexed name [gp_k] of the store is among the indices loaded for
    the group. *)
Lemma group_indices_complete store gp used k :
  Reconcile.group_indices store gp = Some used ->
  In (String.append (Reconcile.prefix_str gp) (String.append "_" (Reconcile.string_of_nat k))) store ->
  In (Z.of_nat k) used.
Proof.
  unfold Reconcile.group_indices; intros H Hin.
  destruct (Reconcile.map_opt _ _) as [l|] eqn:E; [|discriminate].
  injection H as <-; apply set_of_in.
  rewrite <- string_append_assoc in Hin.
  eapply (map_opt_in _ _ _ _ _ E).
  - apply filter_In; split; [exact Hin | apply like_prefix].
  - rewrite removeprefix_append.
    destruct (string_of_nat_digits k) as [L (H1 & H2 & H3 & H4)].
    rewrite <- (string_of_list_ascii_of_string (Reconcile.string_of_nat k)), H1.
    apply python_int_digits; assumption.
Qed.

Lemma opt_str_eqb_eq a b : Reconcile.opt_str_eqb a b = true <-> a = b.
Proof.
  destruct a as [x|], b as [y|]; simpl; split; intros H; try discriminate; try reflexivity.
  - apply String.eqb_eq in H; subst; reflexivity.
  - injection H as ->; apply String.eqb_refl.
Qed.

Lemma gm_covers_set S gm gp v :
  gm_covers S gm ->
  (forall k, In (String.append (Reconcile.prefix_str gp)
                   (String.append "_" (Reconcile.string_of_nat k))) S -> In (Z.of_nat k) v) ->
  gm_covers S (Reconcile.gm_set gp v gm).
Proof.
  intros Hc Hv gp' v' k; simpl; destruct (Reconcile.opt_str_eqb gp' gp) eqn:E.
  - apply opt_str_eqb_eq in E; subst; intros H; injection H as <-; apply Hv.
  - apply Hc.
Qed.

Lemma gm_get_set gp v gm : Reconcile.gm_get gp (Reconcile.gm_set gp v gm) = Some v.
Proof. simpl; rewrite (proj2 (opt_str_eqb_eq gp gp) eq_refl); reflexivity. Qed.

Lemma loop_step_inv S E ls t ls' :
  Reconcile.loop_step S E ls t = Some ls' ->
  gm_covers S (Reconcile.l_groups ls) ->
  gm_covers S (Reconcile.l_groups ls')
  /\ (exists k, Reconcile.l_kept ls' = Reconcile.l_kept ls ++ k)
  /\ (exists a, Reconcile.l_new_names ls' = Reconcile.l_new_names ls ++ a
       /\ forall n, In n a -> ~ In n S /\ In n (map Reconcile.c_task_name (Reconcile.l_kept ls')))
  /\ ((mem_str (Reconcile.c_task_name t) E = false \/ Reconcile.c_overwrite t = true) ->
      In t (Reconcile.l_kept ls'))
  /\ (forall o, In o (map fst (Reconcile.l_overwrite ls')) ->
        In o (map fst (Reconcile.l_overwrite ls))
        \/ (Reconcile.c_task_name t = o /\ Reconcile.c_overwrite t = true)).
Proof.
  unfold Reconcile.loop_step; intros H Hc.
  destruct (mem_str (Reconcile.c_task_name t) E) eqn:Em.
  - destruct (Reconcile.c_overwrite t) eqn:Eo.
    + injection H as <-; simpl.
      split; [exact Hc|]; split; [exists [t]; reflexivity|].
      split; [exists []; rewrite app_nil_r; split; [reflexivity | intros n []]|].
      split; [intros _; apply in_or_app; right; left; reflexivity|].
      intros o Ho; rewrite map_app, in_app_iff in Ho; simpl in Ho.
      destruct Ho as [Ho|[Ho|[]]]; [left; exact Ho | right; split; [exact Ho | reflexivity]].
    + destruct (Reconcile.c_force_new_index t) eqn:Ef.
      * set (gp := Reconcile.c_group_prefix t) in *.
        set (loaded := match Reconcile.gm_get gp (Reconcile.l_groups ls) with
                       | Some (_ :: _) => Some (Reconcile.l_groups ls)
                       | _ => match Reconcile.group_indices S gp with
                              | Some used => Some (Reconcile.gm_set gp used (Reconcile.l_groups ls))
                              | None => None
                              end
                       end) in H.
        assert (HL : forall gm, loaded = Some gm ->
                       gm_covers S gm /\ exists v, Reconcile.gm_get gp gm = Some v).
        { intros gm Hg; unfold loaded in Hg.
          destruct (Reconcile.gm_get gp (Reconcile.l_groups ls)) as [[|z zs]|] eqn:Eg.
          2: { injection Hg as <-; split; [exact Hc | exists (z :: zs); exact Eg]. }
          all: destruct (Reconcile.group_indices S gp) as [used|] eqn:Eu; [|discriminate];
               injection Hg as <-; split; [|exists used; apply gm_get_set];
               apply gm_covers_set; [exact Hc|]; intros k Hk;
               exact (group_indices_complete S gp used k Eu Hk). }
        destruct loaded as [gm|]; [|discriminate].
        destruct (HL gm eq_refl) as [Hgm [v Hv]]; rewrite Hv in H.
        destruct (Reconcile.first_free v) as [idx|] eqn:Ei.
        -- injection H as <-; simpl.
           destruct (first_free_mex v idx Ei) as [Hnot _].
           split.
           { apply gm_covers_set; [exact Hgm|]; intros k Hk; apply set_add_in.
             exact (Hgm gp v k Hv Hk). }
           split; [eexists; reflexivity|].
           split.
           { eexists; split; [reflexivity|]; intros n [<-|[]]; split.
             - intros Hin; exact (Hnot (Hgm gp v idx Hv Hin)).
             - rewrite map_app; apply in_or_app; right; left; reflexivity. }
           split; [intros [Hf|Hf]; congruence|].
           intros o Ho; left; exact Ho.
        -- injection H as <-; simpl.
           split; [exact Hgm|]; split; [eexists; reflexivity|].
           split; [exists []; rewrite app_nil_r; split; [reflexivity | intros n []]|].
           split; [intros [Hf|Hf]; congruence|].
           intros o Ho; left; exact Ho.
      * injection H as <-.
        split; [exact Hc|]; split; [exists []; rewrite app_nil_r; reflexivity|].
        split; [exists []; rewrite app_nil_r; split; [reflexivity | intros n []]|].
        split; [intros [Hf|Hf]; congruence|].
        intros o Ho; left; exact Ho.
  - injection H as <-; simpl.
    split; [exact Hc|]; split; [exists [t]; reflexivity|].
    split; [exists []; rewrite app_nil_r; split; [reflexivity | intros n []]|].
    split; [intros _; apply in_or_app; right; left; reflexivity|].
    intros o Ho; left; exact Ho.
Qed.

Lemma loop_fold_inv S E L ls ls' :
  fold_opt (Reconcile.loop_step S E) L ls = Some ls' ->
  gm_covers S (Reconcile.l_groups ls) ->
  (exists k, Reconcile.l_kept ls' = Reconcile.l_kept ls ++ k)
  /\ (exists a, Reconcile.l_new_names ls' = Reconcile.l_new_names ls ++ a
       /\ forall n, In n a -> ~ In n S /\ In n (map Reconcile.c_task_name (Reconcile.l_kept ls')))
  /\ (forall t, In t L ->
      (mem_str (Reconcile.c_task_name t) E = false \/ Reconcile.c_overwrite t = true) ->
      In t (Reconcile.l_kept ls'))
  /\ (forall o, In o (map fst (Reconcile.l_overwrite ls')) ->
        In o (map fst (Reconcile.l_overwrite ls))
        \/ exists t, In t L /\ Reconcile.c_task_name t = o /\ Reconcile.c_overwrite t = true).
Proof.
  revert ls; induction L as [|t L IH]; simpl; intros ls H Hc.
  - injection H as <-.
    split; [exists []; rewrite app_nil_r; reflexivity|].
    split; [exists []; rewrite app_nil_r; split; [reflexivity | intros n []]|].
    split; [intros t []|]; intros o Ho; left; exact Ho.
  - destruct (Reconcile.loop_step S E ls t) as [ls1|] eqn:E1; [|discriminate].
    destruct (loop_step_inv S E ls t ls1 E1 Hc) as (Hc1 & [k1 Hk1] & [a1 [Ha1 Ha1']] & Ht1 & Ho1).
    destruct (IH ls1 H Hc1) as ([k2 Hk2] & [a2 [Ha2 Ha2']] & Ht2 & Ho2).
    split; [exists (k1 ++ k2); rewrite Hk2, Hk1, app_assoc; reflexivity|].
    split.
    { exists (a1 ++ a2); rewrite Ha2, Ha1, app_assoc; split; [reflexivity|].
      intros n Hn; apply in_app_iff in Hn; destruct Hn as [Hn|Hn]; [|exact (Ha2' n Hn)].
      destruct (Ha1' n Hn) as [Hs Hk]; split; [exact Hs|].
      rewrite Hk2, map_app; apply in_or_app; left; exact Hk. }
    split.
    { intros t' [<-|Ht'] Hcond; [|exact (Ht2 t' Ht' Hcond)].
      rewrite Hk2; apply in_or_app; left; exact (Ht1 Hcond). }
    intros o Ho; destruct (Ho2 o Ho) as [Ho'|[t' [Ht' Ht'']]].
    + destruct (Ho1 o Ho') as [Ho''|[Hn Hw]]; [left; exact Ho''|].
      right; exists t; split; [left; reflexivity | split; assumption].
    + right; exists t'; split; [right; exact Ht' | exact Ht''].
Qed.

(** [add_db_collection_tasks]: the final task names are unique; every
    returned new name is not in the store and is inserted; each candidate
    new to the store or marked overwrite is present afterwards; a stored
    task is removed only when a candidate of its name asks to overwrite. *)
Theorem add_tasks_names (store_names : list string)
    (collection_tasks : list Reconcile.ClientTaskConfig) (final new_names : list string)
    (H : Reconcile.add_db_collection_tasks store_names collection_tasks = Some (final, new_names)) :
  NoDup final
  /\ (forall n, In n new_names -> ~ In n store_names /\ In n final)
  /\ (forall t, In t collection_tasks ->
        ~ In (Reconcile.c_task_name t) store_names \/ Reconcile.c_overwrite t = true ->
        In (Reconcile.c_task_name t) final)
  /\ (forall n, In n store_names ->
        (forall t, In t collection_tasks -> Reconcile.c_task_name t = n ->
                   Reconcile.c_overwrite t = false) ->
        In n final).
Proof.
  unfold Reconcile.add_db_collection_tasks in H.
  set (task_names := map Reconcile.c_task_name collection_tasks) in H.
  set (E := List.filter (fun n => mem_str n task_names) store_names) in H.
  set (init := map Reconcile.c_task_name
                 (List.filter (fun t => negb (mem_str (Reconcile.c_task_name t) E))
                    collection_tasks)) in H.
  destruct (fold_opt _ _ _) as [ls|] eqn:Ef; [|discriminate].
  destruct (Reconcile.nodup_str _) eqn:Nd; [|discriminate].
  injection H as <- <-.
  destruct (loop_fold_inv store_names E collection_tasks _ ls Ef) as (_ & [a [Ha Ha']] & Ht & Ho).
  { intros gp v k Hg; discriminate. }
  simpl in Ha, Ho.
  assert (HE : forall n, In n store_names -> In n task_names -> mem_str n E = true).
  { intros n Hs Ht'; apply mem_str_In; apply filter_In; split; [exact Hs|].
    apply mem_str_In; exact Ht'. }
  split; [apply nodup_str_spec; exact Nd|].
  split.
  { intros n Hn; rewrite Ha in Hn; apply in_app_iff in Hn; destruct Hn as [Hn|Hn].
    - unfold init in Hn; apply in_map_iff in Hn; destruct Hn as [t [<- Ht']].
      apply filter_In in Ht'; destruct Ht' as [Ht' Hm]; apply negb_true_iff in Hm.
      split.
      + intros Hs; rewrite (HE _ Hs) in Hm; [discriminate|].
        unfold task_names; apply in_map; exact Ht'.
      + apply in_or_app; right; apply in_map; apply Ht; [exact Ht' | left; exact Hm].
    - destruct (Ha' n Hn) as [Hs Hk]; split; [exact Hs | apply in_or_app; right; exact Hk]. }
  split.
  { intros t Ht' Hcond; apply in_or_app; right; apply in_map; apply Ht; [exact Ht'|].
    destruct Hcond as [Hs|Hw]; [left | right; exact Hw].
    destruct (mem_str _ E) eqn:Em; [|reflexivity].
    apply mem_str_In in Em; apply filter_In in Em; destruct Em as [Em _]; contradiction. }
  intros n Hs Hno; apply in_or_app; left; apply filter_In; split; [exact Hs|].
  apply negb_true_iff; destruct (mem_str n _) eqn:Em; [|reflexivity].
  apply mem_str_In in Em; destruct (Ho n Em) as [[]|[t [Ht' [Hn Hw]]]].
  rewrite (Hno t Ht' Hn) in Hw; discriminate.
Qed.

Lemma add_tasks_names_witness :
  Reconcile.add_db_collection_tasks grp_store_names [grp_candidate]
    = Some (["grp_0"; "grp_2"; "grp_1"]%string, ["grp_1"]%string)
  /\ ~ In "grp_1"%string grp_store_names.
Proof.
  assert (E : Reconcile.add_db_collection_tasks grp_store_names [grp_candidate]
              = Some (["grp_0"; "grp_2"; "grp_1"]%string, ["grp_1"]%string))
    by (vm_compute; reflexivity).
  split; [exact E|].
  exact (proj1 (proj1 (proj2 (add_tasks_names _ _ _ _ E)) "grp_1"%string (or_introl eq_refl))).
Defined.

Lemma status_eqb_false a b : status_eqb a b = false <-> a <> b.
Proof.
  split; intros H.
  - intros ->; destruct b; discriminate.
  - destruct (status_eqb a b) eqn:E; [apply status_eqb_spec in E; contradiction | reflexivity].
Qed.

Lemma insert_sorted_some x s s' :
  Groups.insert_sorted x s = Some s' -> StronglySorted idx_le s ->
  Permutation (x :: s) s' /\ StronglySorted idx_le s'.
Proof.
  revert s'; induction s as [|y s IH]; simpl; intros s' H Hs.
  - injection H as <-; split; [reflexivity | repeat constructor].
  - apply StronglySorted_inv in Hs; destruct Hs as [Hs Hy].
    unfold Groups.tuple_lt in H.
    destruct (Z.eqb (fst x) (fst y)) eqn:Exy.
    + apply Z.eqb_eq in Exy.
      destruct (status_eqb (snd x) (snd y)); [|discriminate].
      destruct (Groups.insert_sorted x s) as [s1|] eqn:E1; [|discriminate].
      simpl in H; injection H as <-.
      destruct (IH s1 eq_refl Hs) as [Hp Hs1].
      split; [rewrite <- Hp; apply perm_swap|].
      constructor; [exact Hs1|].
      apply Forall_forall; intros z Hz.
      apply (Permutation_in _ (Permutation_sym Hp)) in Hz; destruct Hz as [<-|Hz].
      * unfold idx_le; lia.
      * exact (proj1 (Forall_forall _ _) Hy z Hz).
    + destruct (Z.ltb (fst x) (fst y)) eqn:Lt.
      * injection H as <-; apply Z.ltb_lt in Lt.
        split; [reflexivity|].
        constructor; [constructor; assumption|].
        constructor; [unfold idx_le; lia|].
        apply Forall_forall; intros z Hz.
        pose proof (proj1 (Forall_forall _ _) Hy z Hz); unfold idx_le in *; lia.
      * apply Z.ltb_ge in Lt; apply Z.eqb_neq in Exy.
        destruct (Groups.insert_sorted x s) as [s1|] eqn:E1; [|discriminate].
        simpl in H; injection H as <-.
        destruct (IH s1 eq_refl Hs) as [Hp Hs1].
        split; [rewrite <- Hp; apply perm_swap|].
        constructor; [exact Hs1|].
        apply Forall_forall; intros z Hz.
        apply (Permutation_in _ (Permutation_sym Hp)) in Hz; destruct Hz as [<-|Hz].
        -- unfold idx_le; lia.
        -- exact (proj1 (Forall_forall _ _) Hy z Hz).
Qed.

Lemma insert_sorted_none x s :
  Groups.insert_sorted x s = None ->
  exists y, In y s /\ fst y = fst x /\ snd y <> snd x.
Proof.
  induction s as [|y s IH]; simpl; intros H; [discriminate|].
  unfold Groups.tuple_lt in H.
  destruct (Z.eqb (fst x) (fst y)) eqn:Exy.
  - apply Z.eqb_eq in Exy.
    destruct (status_eqb (snd x) (snd y)) eqn:Es.
    + destruct (Groups.insert_sorted x s) eqn:E1; [discriminate|].
      destruct (IH eq_refl) as [z [Hz Hz']]; exists z; split; [right; exact Hz | exact Hz'].
    + exists y; split; [left; reflexivity|]; split; [symmetry; exact Exy|].
      apply status_eqb_false in Es; intros E; apply Es; symmetry; exact E.
  - destruct (Z.ltb (fst x) (fst y)); [discriminate|].
    destruct (Groups.insert_sorted x s) eqn:E1; [discriminate|].
    destruct (IH eq_refl) as [z [Hz Hz']]; exists z; split; [right; exact Hz | exact Hz'].
Qed.

Lemma insert_sorted_conflict x s y :
  StronglySorted idx_le s -> In y s -> fst y = fst x -> snd y <> snd x ->
  Groups.insert_sorted x s = None.
Proof.
  induction s as [|z s IH]; simpl; intros Hs Hy Hf Hn; [contradiction|].
  apply StronglySorted_inv in Hs; destruct Hs as [Hs Hz].
  unfold Groups.tuple_lt.
  destruct (Z.eqb (fst x) (fst z)) eqn:Exz.
  - apply Z.eqb_eq in Exz.
    destruct (status_eqb (snd x) (snd z)) eqn:Es; [|reflexivity].
    apply status_eqb_spec in Es.
    destruct Hy as [<-|Hy]; [exfalso; apply Hn; symmetry; exact Es|].
    rewrite (IH Hs Hy Hf Hn); reflexivity.
  - apply Z.eqb_neq in Exz.
    destruct Hy as [<-|Hy]; [exfalso; apply Exz; symmetry; exact Hf|].
    pose proof (proj1 (Forall_forall _ _) Hz y Hy) as Hle; unfold idx_le in Hle.
    destruct (Z.ltb (fst x) (fst z)) eqn:Lt; [apply Z.ltb_lt in Lt; lia|].
    rewrite (IH Hs Hy Hf Hn); reflexivity.
Qed.

Lemma conflict_incl l l' : incl l l' -> conflict l -> conflict l'.
Proof.
  intros Hi [a [b (Ha & Hb & H1 & H2)]]; exists a, b; auto.
Qed.

Lemma sort_fold_spec l acc :
  StronglySorted idx_le acc -> ~ conflict acc ->
  match fold_opt (fun s x => Groups.insert_sorted x s) l acc with
  | Some s => Permutation (l ++ acc) s /\ StronglySorted idx_le s /\ ~ conflict s
  | None => conflict (l ++ acc)
  end.
Proof.
  revert acc; induction l as [|x l IH]; simpl; intros acc Ha Hn.
  - split; [reflexivity | split; assumption].
  - destruct (Groups.insert_sorted x acc) as [acc1|] eqn:E.
    + destruct (insert_sorted_some x acc acc1 E Ha) as [Hp Hs].
      assert (Hn1 : ~ conflict acc1).
      { intros [a [b (Ha' & Hb' & H1 & H2)]].
        apply (Permutation_in _ (Permutation_sym Hp)) in Ha', Hb'.
        destruct Ha' as [Ea|Ha'], Hb' as [Eb|Hb'].
        - subst; apply H2; reflexivity.
        - subst a; rewrite (insert_sorted_conflict x acc b Ha Hb' (eq_sym H1)
                     (fun e => H2 (eq_sym e))) in E; discriminate.
        - subst b; rewrite (insert_sorted_conflict x acc a Ha Ha' H1 H2) in E; discriminate.
        - apply Hn; exists a, b; auto. }
      specialize (IH acc1 Hs Hn1).
      destruct (fold_opt _ l acc1) as [s|].
      * destruct IH as [Hp' Hs']; split; [|exact Hs'].
        rewrite <- Hp', <- Hp; apply Permutation_middle.
      * apply (conflict_incl (l ++ acc1)); [|exact IH].
        intros z Hz; apply in_app_iff in Hz; destruct Hz as [Hz|Hz].
        -- right; apply in_or_app; left; exact Hz.
        -- apply (Permutation_in _ (Permutation_sym Hp)) in Hz; destruct Hz as [<-|Hz];
             [left; reflexivity | right; apply in_or_app; right; exact Hz].
    + destruct (insert_sorted_none x acc E) as [y [Hy [H1 H2]]].
      exists x, y; split; [left; reflexivity|]; split; [right; apply in_or_app; right; exact Hy|].
      split; [symmetry; exact H1 | intros E'; apply H2; symmetry; exact E'].
Qed.

Lemma sort_list_spec l :
  match Groups.sort_list l with
  | Some s => Permutation l s /\ Sorted idx_le s /\ ~ conflict l
  | None => conflict l
  end.
Proof.
  unfold Groups.sort_list.
  pose proof (sort_fold_spec l [] (SSorted_nil _)) as H.
  assert (Hn : ~ conflict []) by (intros [a [b [[] _]]]).
  specialize (H Hn); rewrite app_nil_r in H.
  destruct (fold_opt _ l []) as [s|].
  - destruct H as (Hp & Hs & Hc); split; [exact Hp|]; split.
    + apply StronglySorted_Sorted; exact Hs.
    + intros C; apply Hc; apply (conflict_incl l); [|exact C].
      intros z Hz; exact (Permutation_in _ Hp Hz).
  - exact H.
Qed.

Lemma try_len_some k l g :
  Groups.try_len k l = Some g ->
  exists k', 1 <= k' <= k /\ g = firstn k' l /\ Groups.dollar (skipn k' l) = true.
Proof.
  induction k as [|k IH]; cbn [Groups.try_len]; intros H; [discriminate|].
  destruct (Groups.dollar (skipn (S k) l)) eqn:E.
  - injection H as <-; exists (S k); split; [lia|]; split; [reflexivity | exact E].
  - destruct (IH H) as [k' (H1 & H2 & H3)]; exists k'; split; [lia|]; split; assumption.
Qed.

Lemma try_len_found k l k' :
  1 <= k' <= k -> Groups.dollar (skipn k' l) = true -> Groups.try_len k l <> None.
Proof.
  induction k as [|k IH]; cbn [Groups.try_len]; intros Hk Hd; [lia|].
  destruct (Groups.dollar (skipn (S k) l)) eqn:E; [discriminate|].
  destruct (Nat.eq_dec k' (S k)) as [->|Hne]; [congruence|].
  apply IH; [lia | exact Hd].
Qed.

Lemma digit_run_le l : Groups.digit_run l <= List.length l.
Proof. induction l as [|c l IH]; simpl; [lia | destruct (Reconcile.is_digit c); simpl; lia]. Qed.

Lemma digit_run_firstn l k :
  k <= Groups.digit_run l -> Forall (fun c => Reconcile.is_digit c = true) (firstn k l).
Proof.
  revert k; induction l as [|c l IH]; intros k Hk; [rewrite firstn_nil; constructor|].
  destruct k as [|k]; [constructor|]; simpl in *.
  destruct (Reconcile.is_digit c) eqn:E; [|lia].
  constructor; [exact E | apply IH; lia].
Qed.

Lemma digit_run_app g r :
  Forall (fun c => Reconcile.is_digit c = true) g -> List.length g <= Groups.digit_run (g ++ r).
Proof.
  induction 1 as [|c g Hc Hg IH]; simpl; [lia | rewrite Hc; lia].
Qed.

Lemma match_at_some l g :
  Groups.match_at l = Some g ->
  exists e, l = g ++ e /\ Groups.dollar e = true /\ g <> []
    /\ Forall (fun c => Reconcile.is_digit c = true) g.
Proof.
  unfold Groups.match_at; intros H.
  destruct (try_len_some _ _ _ H) as [k' (H1 & H2 & H3)].
  exists (skipn k' l); split; [rewrite H2; symmetry; apply firstn_skipn|].
  split; [exact H3|]; split.
  - pose proof (digit_run_le l).
    rewrite H2; intros E; apply (f_equal (@List.length ascii)) in E.
    rewrite length_firstn in E; simpl in E; lia.
  - rewrite H2; apply digit_run_firstn; lia.
Qed.

Lemma match_at_found g e :
  g <> [] -> Forall (fun c => Reconcile.is_digit c = true) g -> Groups.dollar e = true ->
  Groups.match_at (g ++ e) <> None.
Proof.
  intros Hne Hd He; unfold Groups.match_at.
  apply (try_len_found _ _ (List.length g)).
  - split; [destruct g; [contradiction | simpl; lia] | apply digit_run_app; exact Hd].
  - rewrite skipn_app, Nat.sub_diag, skipn_all; exact He.
Qed.

Lemma search_from_some l g :
  Groups.search_from l = Some g ->
  exists pre e, l = pre ++ g ++ e /\ Groups.dollar e = true /\ g <> []
    /\ Forall (fun c => Reconcile.is_digit c = true) g
    /\ (forall pre' c, pre = pre' ++ [c] -> Reconcile.is_digit c = false).
Proof.
  induction l as [|c l IH]; cbn [Groups.search_from]; intros H.
  - destruct (Groups.match_at []) as [g'|] eqn:E; [|discriminate].
    injection H as ->; destruct (match_at_some _ _ E) as [e (H1 & H2 & H3 & H4)].
    exists [], e; split; [exact H1|]; split; [exact H2|]; split; [exact H3|]; split; [exact H4|].
    intros pre' c' Hp; destruct pre'; discriminate.
  - destruct (Groups.match_at (c :: l)) as [g'|] eqn:E.
    + injection H as ->; destruct (match_at_some _ _ E) as [e (H1 & H2 & H3 & H4)].
      exists [], e; split; [exact H1|]; split; [exact H2|]; split; [exact H3|]; split; [exact H4|].
      intros pre' c' Hp; destruct pre'; discriminate.
    + destruct (IH H) as [pre [e (H1 & H2 & H3 & H4 & H5)]].
      exists (c :: pre), e; split; [rewrite H1; reflexivity|].
      split; [exact H2|]; split; [exact H3|]; split; [exact H4|].
      intros pre' c' Hp; destruct pre' as [|c0 pre'].
      * injection Hp as -> Hp; subst pre.
        destruct (Reconcile.is_digit c') eqn:Ed; [|reflexivity].
        exfalso; apply (match_at_found (c' :: g) e); [discriminate | constructor; assumption | exact H2 |].
        rewrite <- E, H1; reflexivity.
      * injection Hp as -> Hp; exact (H5 pre' c' Hp).
Qed.

Lemma search_from_found pre g e :
  g <> [] -> Forall (fun c => Reconcile.is_digit c = true) g -> Groups.dollar e = true ->
  Groups.search_from (pre ++ g ++ e) <> None.
Proof.
  intros Hne Hd He; induction pre as [|c pre IH]; simpl.
  - destruct (g ++ e) eqn:Eg; simpl.
    + destruct g; [contradiction | discriminate].
    + destruct (Groups.match_at (a :: l)) eqn:Em; [discriminate|].
      exfalso; apply (match_at_found g e Hne Hd He); rewrite Eg; exact Em.
  - destruct (Groups.match_at (c :: pre ++ g ++ e)); [discriminate | exact IH].
Qed.

Lemma is_prefix_spec p l : Groups.is_prefix p l = true <-> exists r, l = p ++ r.
Proof.
  revert l; induction p as [|c p IH]; intros l; simpl.
  - split; [intros _; exists l; reflexivity | reflexivity].
  - destruct l as [|d l]; split.
    + discriminate.
    + intros [r Hr]; discriminate.
    + intros H; apply andb_true_iff in H; destruct H as [H1 H2].
      apply Ascii.eqb_eq in H1; subst; apply IH in H2; destruct H2 as [r ->]; exists r; reflexivity.
    + intros [r Hr]; injection Hr as -> ->; rewrite Ascii.eqb_refl; simpl.
      apply IH; exists r; reflexivity.
Qed.

Lemma rfind_from_spec sub s i :
  (exists j, Groups.rfind_from sub s i = Z.of_nat (i + j) /\ j <= List.length s
     /\ Groups.is_prefix sub (skipn j s) = true
     /\ forall j', j < j' <= List.length s -> Groups.is_prefix sub (skipn j' s) = false)
  \/ (Groups.rfind_from sub s i = (-1)%Z
      /\ forall j', j' <= List.length s -> Groups.is_prefix sub (skipn j' s) = false).
Proof.
  revert i; induction s as [|c s IH]; intros i; cbn [Groups.rfind_from].
  - destruct (Groups.is_prefix sub []) eqn:E.
    + left; exists 0; rewrite Nat.add_0_r; split; [reflexivity|]; split; [simpl; lia|].
      split; [exact E | simpl; lia].
    + right; split; [reflexivity|]; intros j' Hj; simpl in Hj.
      replace j' with 0 by lia; exact E.
  - destruct (IH (S i)) as [[j (H1 & H2 & H3 & H4)] | [H1 H2]].
    + rewrite H1; replace (0 <=? Z.of_nat (S i + j))%Z with true by (symmetry; apply Z.leb_le; lia).
      left; exists (S j); split; [f_equal; lia|]; split; [simpl; lia|].
      split; [exact H3|].
      intros j' Hj; destruct j' as [|j']; [lia|]; simpl; apply H4; simpl in Hj; lia.
    + rewrite H1; cbn -[Groups.is_prefix].
      assert (Hs : forall j', 0 < j' <= List.length (c :: s) ->
                   Groups.is_prefix sub (skipn j' (c :: s)) = false).
      { intros j' Hj; destruct j' as [|j']; [lia|]; simpl; apply H2; simpl in Hj; lia. }
      destruct (Groups.is_prefix sub (c :: s)) eqn:E.
      * left; exists 0; rewrite Nat.add_0_r; split; [reflexivity|]; split; [lia|].
        split; [exact E | exact Hs].
      * right; split; [reflexivity|]; intros j' Hj.
        destruct j' as [|j']; [exact E | apply Hs; simpl in *; lia].
Qed.

Lemma dollar_cases e : Groups.dollar e = true -> e = [] \/ e = ["010"%char].
Proof.
  destruct e as [|c [|d e]]; simpl; intros H; try discriminate; [left; reflexivity|].
  apply Ascii.eqb_eq in H; subst; right; reflexivity.
Qed.

Lemma no_later_occurrence g e d :
  g <> [] -> Forall (fun c => Reconcile.is_digit c = true) g -> Groups.dollar e = true ->
  1 <= d -> Groups.is_prefix g (skipn d (g ++ e)) = false.
Proof.
  intros Hne Hd He Hd1.
  destruct (Groups.is_prefix g (skipn d (g ++ e))) eqn:E; [|reflexivity].
  exfalso; apply is_prefix_spec in E; destruct E as [r Hr].
  pose proof (f_equal (@List.length ascii) Hr) as Hl.
  rewrite length_skipn, !length_app in Hl.
  assert (Hg0 : 0 < List.length g) by (destruct g; [contradiction | simpl; lia]).
  destruct (dollar_cases e He) as [ -> | -> ]; simpl in Hl; [lia|].
  assert (Hd1' : d = 1) by lia; subst d.
  assert (Hr0 : r = []) by (destruct r; [reflexivity | simpl in Hl; lia]); subst r.
  rewrite app_nil_r in Hr.
  destruct g as [|c g]; [contradiction|]; simpl in Hr.
  assert (Hin : In "010"%char (c :: g)) by (rewrite <- Hr; apply in_or_app; right; left; reflexivity).
  rewrite Forall_forall in Hd; specialize (Hd _ Hin); vm_compute in Hd; discriminate.
Qed.

Lemma rfind_match pre g e :
  g <> [] -> Forall (fun c => Reconcile.is_digit c = true) g -> Groups.dollar e = true ->
  Groups.rfind (pre ++ g ++ e) g = Z.of_nat (List.length pre).
Proof.
  intros Hne Hd He; unfold Groups.rfind.
  assert (Hat : Groups.is_prefix g (skipn (List.length pre) (pre ++ g ++ e)) = true).
  { rewrite skipn_app, Nat.sub_diag, skipn_all; simpl; apply is_prefix_spec; exists e; reflexivity. }
  assert (Hlen : List.length pre <= List.length (pre ++ g ++ e)) by (rewrite length_app; lia).
  assert (Hafter : forall j', List.length pre < j' ->
                   Groups.is_prefix g (skipn j' (pre ++ g ++ e)) = false).
  { intros j' Hj; replace j' with ((j' - List.length pre) + List.length pre) by lia.
    rewrite <- skipn_skipn, skipn_app, Nat.sub_diag, skipn_all; simpl.
    apply no_later_occurrence; auto; lia. }
  destruct (rfind_from_spec g (pre ++ g ++ e) 0) as [[j (H1 & H2 & H3 & H4)] | [H1 H2]].
  - rewrite H1; f_equal; simpl.
    destruct (Nat.lt_trichotomy j (List.length pre)) as [Hj|[Hj|Hj]]; [|exact Hj|].
    + rewrite (H4 _ (conj Hj Hlen)) in Hat; discriminate.
    + rewrite (Hafter j Hj) in H3; discriminate.
  - rewrite (H2 _ Hlen) in Hat; discriminate.
Qed.

Lemma digits_acc_digits L a :
  Forall (fun c => Reconcile.is_digit c = true) L -> exists v, Reconcile.digits_acc L a false = Some v.
Proof.
  revert a; induction L as [|c L IH]; intros a H; [exists a; reflexivity|].
  inversion H as [|? ? Hc HL]; subst; cbn [Reconcile.digits_acc]; rewrite Hc; apply IH; exact HL.
Qed.

Lemma g_append_entry k w g p v :
  entry p v (Groups.g_append k w g) <-> entry p v g \/ (p = k /\ v = w).
Proof.
  unfold entry; induction g as [|[k' l] g IH]; cbn [Groups.g_append].
  - split.
    + intros [l [[E|[]] Hv]]; injection E as <- <-; destruct Hv as [<-|[]]; right; split; reflexivity.
    + intros [[l [[] _]]|[-> ->]]; exists [w]; split; left; reflexivity.
  - destruct (String.eqb k k') eqn:E.
    + apply String.eqb_eq in E; subst k'; split.
      * intros [l' [[E|Hl] Hv]].
        -- injection E as <- <-; apply in_app_iff in Hv; destruct Hv as [Hv|[<-|[]]].
           ++ left; exists l; split; [left; reflexivity | exact Hv].
           ++ right; split; reflexivity.
        -- left; exists l'; split; [right; exact Hl | exact Hv].
      * intros [[l' [[E|Hl] Hv]]|[-> ->]].
        -- injection E as <- <-; exists (l ++ [w]); split; [left; reflexivity | apply in_or_app; left; exact Hv].
        -- exists l'; split; [right; exact Hl | exact Hv].
        -- exists (l ++ [w]); split; [left; reflexivity | apply in_or_app; right; left; reflexivity].
    + split.
      * intros [l' [[E'|Hl] Hv]].
        -- injection E' as <- <-; left; exists l; split; [left; reflexivity | exact Hv].
        -- destruct (proj1 IH (ex_intro _ l' (conj Hl Hv))) as [[l'' [Hl'' Hv'']]|H]; [|right; exact H].
           left; exists l''; split; [right; exact Hl'' | exact Hv''].
      * intros [[l' [[E'|Hl] Hv]]|H].
        -- exists l'; split; [left; exact E' | exact Hv].
        -- destruct (proj2 IH (or_introl (ex_intro _ l' (conj Hl Hv)))) as [l'' [Hl'' Hv'']].
           exists l''; split; [right; exact Hl'' | exact Hv''].
        -- destruct (proj2 IH (or_intror H)) as [l'' [Hl'' Hv'']].
           exists l''; split; [right; exact Hl'' | exact Hv''].
Qed.

Lemma g_append_keys k w g p :
  In p (map fst (Groups.g_append k w g)) <-> In p (map fst g) \/ p = k.
Proof.
  induction g as [|[k' l] g IH]; cbn [Groups.g_append map fst].
  - simpl; split; [intros [<-|[]]; right; reflexivity | intros [[]| ->]; left; reflexivity].
  - destruct (String.eqb k k') eqn:E.
    + apply String.eqb_eq in E; subst k'; simpl; split; [tauto|].
      intros [H| ->]; [exact H | left; reflexivity].
    + simpl; rewrite IH; tauto.
Qed.

Lemma g_append_nodup k w g :
  NoDup (map fst g) -> NoDup (map fst (Groups.g_append k w g)).
Proof.
  induction g as [|[k' l] g IH]; cbn [Groups.g_append map fst]; intros H.
  - repeat constructor; intros [].
  - destruct (String.eqb k k') eqn:E; [exact H|].
    apply String.eqb_neq in E; inversion H as [|? ? Hn Hd]; subst.
    simpl; constructor; [|exact (IH Hd)].
    rewrite g_append_keys; intros [Hk|Hk]; [exact (Hn Hk) | exact (E (eq_sym Hk))].
Qed.

Lemma group_step_spec g name s :
  exists g', Groups.group_step g (name, s) = Some g'
    /\ (forall p v, entry p v g' -> entry p v g \/ exists k, v = (k, s) /\ row_entry name p k)
    /\ (forall p v, entry p v g -> entry p v g')
    /\ (ends_in_digit name -> exists p k, row_entry name p k /\ entry p (k, s) g')
    /\ (NoDup (map fst g) -> NoDup (map fst g')).
Proof.
  unfold Groups.group_step.
  destruct (Groups.search_from (list_ascii_of_string name)) as [gid|] eqn:Es.
  - destruct (search_from_some _ _ Es) as [pre [e (H1 & H2 & H3 & H4 & H5)]].
    rewrite H1, (rfind_match pre gid e H3 H4 H2).
    assert (Hsl : Groups.slice_to (pre ++ gid ++ e) (Z.of_nat (List.length pre)) = pre).
    { unfold Groups.slice_to.
      replace (Z.of_nat (List.length pre) <? 0)%Z with false by (symmetry; apply Z.ltb_ge; lia).
      rewrite Nat2Z.id, firstn_app, Nat.sub_diag, firstn_O, app_nil_r, firstn_all; reflexivity. }
    rewrite Hsl.
    destruct (digits_acc_digits gid 0 H4) as [k Hk].
    rewrite (python_int_digits gid k H4 H3 Hk).
    assert (Hre : row_entry name (string_of_list_ascii pre) k).
    { exists pre, gid, e; split; [exact H1|]; split; [exact H3|]; split; [exact H4|].
      split; [exact (dollar_cases e H2)|]; split; [exact H5|]; split; [reflexivity|].
      exact (python_int_digits gid k H4 H3 Hk). }
    eexists; split; [reflexivity|]; split; [|split; [|split]].
    + intros p v Hv; apply g_append_entry in Hv; destruct Hv as [Hv|[-> ->]]; [left; exact Hv|].
      right; exists k; split; [reflexivity | exact Hre].
    + intros p v Hv; apply g_append_entry; left; exact Hv.
    + intros _; exists (string_of_list_ascii pre), k; split; [exact Hre|].
      apply g_append_entry; right; split; reflexivity.
    + apply g_append_nodup.
  - exists g; split; [reflexivity|]; split; [intros p v Hv; left; exact Hv|].
    split; [intros p v Hv; exact Hv|]; split; [|intros H; exact H].
    intros [pre [c [e (H1 & H2 & H3)]]]; exfalso.
    apply (search_from_found pre [c] e); [discriminate | constructor; [exact H2 | constructor] |
      destruct H3 as [ -> | -> ]; reflexivity |].
    rewrite <- H1; exact Es.
Qed.

Lemma collect_fold rows acc :
  exists g, fold_opt Groups.group_step rows acc = Some g
    /\ (forall p v, entry p v g -> entry p v acc
          \/ exists name s k, In (name, s) rows /\ v = (k, s) /\ row_entry name p k)
    /\ (forall p v, entry p v acc -> entry p v g)
    /\ (forall name s, In (name, s) rows -> ends_in_digit name ->
          exists p k, row_entry name p k /\ entry p (k, s) g)
    /\ (NoDup (map fst acc) -> NoDup (map fst g)).
Proof.
  revert acc; induction rows as [|[name s] rows IH]; intros acc; cbn [fold_opt].
  - exists acc; split; [reflexivity|]; split; [intros p v H; left; exact H|].
    split; [intros p v H; exact H|]; split; [intros name s []|intros H; exact H].
  - destruct (group_step_spec acc name s) as [g1 (E1 & S1 & M1 & C1 & N1)]; rewrite E1.
    destruct (IH g1) as [g (E & S & M & C & N)].
    exists g; split; [exact E|]; split; [|split; [|split]].
    + intros p v Hv; destruct (S p v Hv) as [Hv1|[n [s' [k (Hi & Hv' & Hr)]]]].
      * destruct (S1 p v Hv1) as [H|[k [Hv' Hr]]]; [left; exact H|].
        right; exists name, s, k; split; [left; reflexivity | split; assumption].
      * right; exists n, s', k; split; [right; exact Hi | split; assumption].
    + intros p v Hv; apply M, M1, Hv.
    + intros n s' [Ei|Hi] Hd.
      * injection Ei as -> ->; destruct (C1 Hd) as [p [k [Hr He]]].
        exists p, k; split; [exact Hr | apply M, He].
      * exact (C n s' Hi Hd).
    + intros H; apply N, N1, H.
Qed.

(** The loop of [find_tasks_groups] never raises; its groups have distinct
    prefixes; each entry [(k, s)] of group [p] comes from a task of status
    [s] whose name is [p], then the digits of [k], then possibly a newline,
    with [p] not ending in a digit; every task whose name ends in a digit
    (possibly followed by a newline) has an entry. *)
Theorem collect_groups_spec (st : Store) :
  exists g, Groups.collect_groups st = Some g
    /\ NoDup (map fst g)
    /\ (forall p k s, entry p (k, s) g ->
          exists t, In t (tasks st) /\ status t = s /\ row_entry (task_name t) p k)
    /\ (forall t, In t (tasks st) -> ends_in_digit (task_name t) ->
          exists p k, row_entry (task_name t) p k /\ entry p (k, status t) g).
Proof.
  unfold Groups.collect_groups.
  destruct (collect_fold (Groups.task_rows st) []) as [g (E & S & _ & C & N)].
  exists g; split; [exact E|]; split; [apply N; constructor|]; split.
  - intros p k s Hv; destruct (S p (k, s) Hv) as [[l [[] _]]|[n [s' [k' (Hi & Hv' & Hr)]]]].
    injection Hv' as <- <-.
    unfold Groups.task_rows in Hi; apply in_map_iff in Hi; destruct Hi as [t [Et Ht]].
    injection Et as <- <-; exists t; split; [exact Ht | split; [reflexivity | exact Hr]].
  - intros t Ht Hd; apply (C (task_name t) (status t)); [|exact Hd].
    unfold Groups.task_rows; apply in_map_iff; exists t; split; [reflexivity | exact Ht].
Qed.

Lemma map_opt_none {A B} (f : A -> option B) l :
  Reconcile.map_opt f l = None <-> exists x, In x l /\ f x = None.
Proof.
  induction l as [|a l IH]; simpl.
  - split; [discriminate | intros [x [[] _]]].
  - destruct (f a) as [b|] eqn:Ea.
    + destruct (Reconcile.map_opt f l) eqn:El; split.
      * discriminate.
      * intros [x [[<-|Hx] Hf]]; [congruence|].
        exfalso; assert (C := proj2 IH (ex_intro _ x (conj Hx Hf))); discriminate C.
      * intros _; destruct (proj1 IH eq_refl) as [x [Hx Hf]]; exists x; split; [right|]; assumption.
      * reflexivity.
    + split; [intros _; exists a; split; [left; reflexivity | exact Ea] | reflexivity].
Qed.

Lemma map_opt_some {A B} (f : A -> option B) l l' :
  Reconcile.map_opt f l = Some l' -> Forall2 (fun x y => f x = Some y) l l'.
Proof.
  revert l'; induction l as [|a l IH]; simpl; intros l' H.
  - injection H as <-; constructor.
  - destruct (f a) as [b|] eqn:Ea; [|discriminate].
    destruct (Reconcile.map_opt f l) as [bs|] eqn:El; [|discriminate].
    injection H as <-; constructor; [exact Ea | exact (IH bs eq_refl)].
Qed.

(** [find_tasks_groups] raises ([TypeError] of the sort) exactly when a
    group holds two entries of the same index and different statuses;
    otherwise each group, in the same order, is a permutation of the
    collected entries sorted by index. *)
Theorem find_tasks_groups_spec (st : Store) :
  exists g, Groups.collect_groups st = Some g
    /\ (Groups.find_tasks_groups st = None <-> exists p l, In (p, l) g /\ conflict l)
    /\ (forall g', Groups.find_tasks_groups st = Some g' ->
          Forall2 (fun a b => fst a = fst b /\ Permutation (snd a) (snd b)
                              /\ Sorted idx_le (snd b)) g g').
Proof.
  destruct (collect_fold (Groups.task_rows st) []) as [g [E _]].
  exists g; split; [exact E|]; unfold Groups.find_tasks_groups, Groups.collect_groups; rewrite E; lazy iota; split.
  - rewrite (map_opt_none (fun '(p, l) => option_map (pair p) (Groups.sort_list l)) g); split.
    + intros [[p l] [Hin Hf]]; exists p, l; split; [exact Hin|].
      pose proof (sort_list_spec l) as Hs.
      destruct (Groups.sort_list l); [discriminate | exact Hs].
    + intros [p [l [Hin Hc]]]; exists (p, l); split; [exact Hin|].
      pose proof (sort_list_spec l) as Hs.
      destruct (Groups.sort_list l); [destruct Hs as (_ & _ & Hn); contradiction | reflexivity].
  - intros g' H; apply map_opt_some in H.
    refine (Forall2_impl _ _ H); intros [p l] [p' l'] Hf.
    pose proof (sort_list_spec l) as Hs.
    destruct (Groups.sort_list l) as [s|]; [|discriminate].
    injection Hf as <- <-; destruct Hs as (Hp & Hs & _); simpl; split; [reflexivity|]; split; assumption.
Qed.

(** [get_tasks_of_states] with and without [negate] partitions the tasks:
    together the two results are a permutation of all tasks, the first
    holding exactly the tasks in the states, the second the others. *)
Theorem get_tasks_of_states_partition (st : Store) (states : list CollectionStatus) :
  Permutation (TaskOps.get_tasks_of_states st states false
               ++ TaskOps.get_tasks_of_states st states true) (tasks st)
  /\ (forall t, In t (TaskOps.get_tasks_of_states st states false)
                <-> In t (tasks st) /\ In (status t) states)
  /\ (forall t, In t (TaskOps.get_tasks_of_states st states true)
                <-> In t (tasks st) /\ ~ In (status t) states).
Proof.
  assert (Hin : forall t, TaskOps.in_states states t = true <-> In (status t) states).
  { intros t; unfold TaskOps.in_states; rewrite existsb_exists; split.
    - intros [x [Hx He]]; apply status_eqb_spec in He; subst; exact Hx.
    - intros H; exists (status t); split; [exact H | apply status_eqb_spec; reflexivity]. }
  unfold TaskOps.get_tasks_of_states; split; [|split].
  - induction (tasks st) as [|t ts IH]; simpl; [constructor|].
    destruct (TaskOps.in_states states t); simpl.
    + constructor; exact IH.
    + apply Permutation_sym, Permutation_cons_app, Permutation_sym; exact IH.
  - intros t; rewrite filter_In, Hin; reflexivity.
  - intros t; rewrite filter_In, negb_true_iff, <- Hin.
    destruct (TaskOps.in_states states t); simpl; split; intros [H1 H2]; split; auto;
      [discriminate H2 | exfalso; apply H2; reflexivity].
Qed.

(** After [reset_task_states] with a list of ids, each task of those ids is
    returned by [get_pending_tasks] with status INIT, and the other tasks
    are unchanged; [get_pending_tasks] with paused tasks returns a superset. *)
Theorem reset_task_states_pending (st : Store) (tasks_ids : list Z) (include_paused_tasks : bool) :
  (forall t, In t (tasks st) -> In (task_id t) tasks_ids ->
     In (TaskOps.set_status t INIT)
        (TaskOps.get_pending_tasks (TaskOps.reset_task_states st tasks_ids) include_paused_tasks))
  /\ (forall t, In t (tasks st) -> ~ In (task_id t) tasks_ids ->
        In t (tasks (TaskOps.reset_task_states st tasks_ids)))
  /\ posts (TaskOps.reset_task_states st tasks_ids) = posts st
  /\ incl (TaskOps.get_pending_tasks st false) (TaskOps.get_pending_tasks st true).
Proof.
  assert (Hm : forall i l, TaskOps.mem_Z i l = true <-> In i l).
  { intros i l; unfold TaskOps.mem_Z; rewrite existsb_exists; split.
    - intros [x [Hx He]]; apply Z.eqb_eq in He; subst; exact Hx.
    - intros H; exists i; split; [exact H | apply Z.eqb_refl]. }
  split; [|split; [|split]].
  - intros t Ht Hi; unfold TaskOps.get_pending_tasks, TaskOps.get_tasks_of_states,
      TaskOps.reset_task_states; cbn [tasks].
    apply filter_In; split.
    + apply in_map_iff; exists t; split; [|exact Ht].
      apply Hm in Hi; rewrite Hi; reflexivity.
    + destruct include_paused_tasks; reflexivity.
  - intros t Ht Hi; unfold TaskOps.reset_task_states; cbn [tasks].
    apply in_map_iff; exists t; split; [|exact Ht].
    destruct (TaskOps.mem_Z (task_id t) tasks_ids) eqn:E; [apply Hm in E; contradiction | reflexivity].
  - reflexivity.
  - unfold TaskOps.get_pending_tasks, TaskOps.get_tasks_of_states; intros t Ht.
    apply filter_In in Ht; destruct Ht as [Ht Hs]; apply filter_In; split; [exact Ht|].
    unfold TaskOps.in_states in *; simpl in *; apply orb_true_iff in Hs.
    destruct Hs as [Hs|Hs]; [rewrite Hs; reflexivity | discriminate Hs].
Qed.
